(** * Acquisition–analysis orchestration engine: a shallow embedding

    The Python sources embedded here are
      - [analysis/veolia_analysis.py]  ([VeoliaTokenManager.get_token],
        [analyze_image_veolia]),
      - [camera/local_camera.py], [camera/reolink_camera.py],
      - [utils/helpers.py] ([cleanup_images]),
      - [capture_dataset.py] ([main]) and [main.py] ([main_loop]).

    Python statements become computations in a small monad that threads
    one [World] (clock, token-manager object, scripted back ends, file
    system, trace of observable events) and distinguishes a normal
    result, a raised [Exception] and [SystemExit].  State changes made
    before an exception is raised persist, as in Python.

    Conventions.  [time.time()] readings and durations are rationals
    (binary64 rounding is not modelled).  [None] is [JNull].  Log calls are
    not part of the trace. *)

From Stdlib Require Import ZArith QArith Qround List String Ascii Bool Lia Lqa DecimalString.
Import ListNotations.

#[local] Set Warnings "-register-all".

Local Open Scope string_scope.
Local Open Scope Z_scope.

(** ** Python values *)

(** The values [json.loads] produces. *)
Inductive json : Type :=
| JNull
| JBool (b : bool)
| JNum (q : Q)
| JStr (s : string)
| JArr (items : list json)
| JObj (fields : list (string * json)).

(** [bool(v)]: [None], [False], zero, and empty containers are falsy. *)
Definition py_truthy (v : json) : bool :=
  match v with
  | JNull => false
  | JBool b => b
  | JNum q => negb (Qeq_bool q 0)
  | JStr s => negb (String.eqb s "")
  | JArr items => match items with [] => false | _ => true end
  | JObj fields => match fields with [] => false | _ => true end
  end.

(** [d.get(k)] on the field list of a dict: first binding of [k]. *)
Fixpoint dict_lookup (k : string) (fields : list (string * json)) : option json :=
  match fields with
  | [] => None
  | (k', v) :: rest => if String.eqb k k' then Some v else dict_lookup k rest
  end.

(** [d[k] = v] on a dict: overwrite in place or append. *)
Fixpoint dict_set (k : string) (v : json) (fields : list (string * json))
  : list (string * json) :=
  match fields with
  | [] => [(k, v)]
  | (k', v') :: rest =>
      if String.eqb k k' then (k, v) :: rest else (k', v') :: dict_set k v rest
  end.

Definition Qltb (a b : Q) : bool := negb (Qle_bool b a).

(** [range(n)]. *)
Definition py_range (n : Z) : list Z := map Z.of_nat (seq 0 (Z.to_nat n)).

(** ** Exceptions and results *)

Inductive exn : Type :=
| KeyError | TypeError | ValueError | AttributeError
| JSONDecodeError | OSError | RequestException | CvError.

(** Result of running a statement: it completes with a value, raises an
    [Exception], or raises [SystemExit] ([sys.exit(code)]), which
    [except Exception] does not catch. *)
Inductive outcome (A : Type) : Type :=
| Done (a : A)
| Raised (e : exn)
| SysExit (code : Z).
Arguments Done {A} a.
Arguments Raised {A} e.
Arguments SysExit {A} code.

(** ** The world *)

Record path : Type := Path { parent : string; name : string }.

(** [os.path.join(dir, base)] for a base name without separators. *)
Definition path_join (dir base : string) : path := Path dir base.

Definition path_eqb (p q : path) : bool :=
  String.eqb (parent p) (parent q) && String.eqb (name p) (name q).

(** A directory entry.  [stat_ok = false]: [os.path.getmtime] raises
    (dangling link); [removable = false]: [os.remove] raises (directory,
    permissions). *)
Record file : Type := File {
  f_path : path;
  f_mtime : Q;
  f_data : string;
  f_stat_ok : bool;
  f_removable : bool
}.

(** What one HTTP request yields: a response, or an exception raised by
    [requests] (connection error, timeout).  [resp_json] is the outcome of
    parsing the body as JSON ([None]: the parse raises). *)
Record response : Type := Response {
  status_code : Z;
  resp_text : string;
  resp_json : option json
}.

Inductive http_outcome : Type :=
| Responds (r : response)
| Fails.

(** The snapshot body is streamed to disk; the stream can break. *)
Inductive snapshot_outcome : Type :=
| Snapshot (status : Z) (body : string) (stream_ok : bool)
| SnapshotFails.

(** [upload_file]: a file id or [None], or an exception. *)
Inductive upload_outcome : Type :=
| Uploaded (file_id : json)
| UploadRaises.

(** The request body of the analysis call. *)
Record payload : Type := Payload {
  useremail : string;
  prompt_text : string;
  image_bytes : string;          (* sent as a base64 data URL *)
  model : string;
  temperature : Q
}.

Inductive event : Type :=
| EvTokenPost (client_id client_secret : string)
| EvApiPost (url : string) (bearer : json) (body : payload)
| EvSnapshotGet (host : json) (rs : string) (user password : json)
| EvCamRead (index : Z)
| EvWrite (p : path)
| EvRemove (p : path)
| EvUpload (p : path)
| EvMakedirs (dir : string)
| EvSleep (seconds : Q).

(** The [VeoliaTokenManager] object. *)
Record VeoliaTokenManager : Type := TokenManager {
  tm_client_id : string;
  tm_client_secret : string;
  tm_token : json;
  tm_expiry : Q
}.

(** [VeoliaTokenManager.__init__]. *)
Definition new_token_manager (client_id client_secret : string) : VeoliaTokenManager :=
  TokenManager client_id client_secret JNull 0.

Record World : Type := MkWorld {
  now : Q;                                 (* time.time() *)
  token_manager : VeoliaTokenManager;      (* the one manager object *)
  token_endpoint : list http_outcome;      (* answers still to come *)
  api_endpoint : list http_outcome;
  snapshot_endpoint : list snapshot_outcome;
  webcam : list (option string);           (* frame of each cam.read(), None: ret is False *)
  uniform01 : list Q;                      (* draws of random.uniform(0,1) *)
  random_str : list string;                (* draws of the cache-busting token *)
  uploads : list upload_outcome;           (* what upload_file will do *)
  makedirs_ok : bool;                      (* os.makedirs succeeds *)
  files : list file;
  trace : list event                       (* oldest first *)
}.

Definition set_now (t : Q) (w : World) : World :=
  MkWorld t (token_manager w) (token_endpoint w) (api_endpoint w)
    (snapshot_endpoint w) (webcam w) (uniform01 w) (random_str w) (uploads w)
    (makedirs_ok w) (files w) (trace w).
Definition set_token_manager (m : VeoliaTokenManager) (w : World) : World :=
  MkWorld (now w) m (token_endpoint w) (api_endpoint w)
    (snapshot_endpoint w) (webcam w) (uniform01 w) (random_str w) (uploads w)
    (makedirs_ok w) (files w) (trace w).
Definition set_token_endpoint (l : list http_outcome) (w : World) : World :=
  MkWorld (now w) (token_manager w) l (api_endpoint w)
    (snapshot_endpoint w) (webcam w) (uniform01 w) (random_str w) (uploads w)
    (makedirs_ok w) (files w) (trace w).
Definition set_api_endpoint (l : list http_outcome) (w : World) : World :=
  MkWorld (now w) (token_manager w) (token_endpoint w) l
    (snapshot_endpoint w) (webcam w) (uniform01 w) (random_str w) (uploads w)
    (makedirs_ok w) (files w) (trace w).
Definition set_snapshot_endpoint (l : list snapshot_outcome) (w : World) : World :=
  MkWorld (now w) (token_manager w) (token_endpoint w) (api_endpoint w)
    l (webcam w) (uniform01 w) (random_str w) (uploads w)
    (makedirs_ok w) (files w) (trace w).
Definition set_webcam (l : list (option string)) (w : World) : World :=
  MkWorld (now w) (token_manager w) (token_endpoint w) (api_endpoint w)
    (snapshot_endpoint w) l (uniform01 w) (random_str w) (uploads w)
    (makedirs_ok w) (files w) (trace w).
Definition set_uniform01 (l : list Q) (w : World) : World :=
  MkWorld (now w) (token_manager w) (token_endpoint w) (api_endpoint w)
    (snapshot_endpoint w) (webcam w) l (random_str w) (uploads w)
    (makedirs_ok w) (files w) (trace w).
Definition set_random_str (l : list string) (w : World) : World :=
  MkWorld (now w) (token_manager w) (token_endpoint w) (api_endpoint w)
    (snapshot_endpoint w) (webcam w) (uniform01 w) l (uploads w)
    (makedirs_ok w) (files w) (trace w).
Definition set_uploads (l : list upload_outcome) (w : World) : World :=
  MkWorld (now w) (token_manager w) (token_endpoint w) (api_endpoint w)
    (snapshot_endpoint w) (webcam w) (uniform01 w) (random_str w) l
    (makedirs_ok w) (files w) (trace w).
Definition set_files (l : list file) (w : World) : World :=
  MkWorld (now w) (token_manager w) (token_endpoint w) (api_endpoint w)
    (snapshot_endpoint w) (webcam w) (uniform01 w) (random_str w) (uploads w)
    (makedirs_ok w) l (trace w).
Definition set_trace (l : list event) (w : World) : World :=
  MkWorld (now w) (token_manager w) (token_endpoint w) (api_endpoint w)
    (snapshot_endpoint w) (webcam w) (uniform01 w) (random_str w) (uploads w)
    (makedirs_ok w) (files w) l.

(** ** The monad *)

Definition M (A : Type) : Type := World -> outcome A * World.

Definition ret {A} (a : A) : M A := fun w => (Done a, w).

Definition bind {A B} (m : M A) (k : A -> M B) : M B :=
  fun w =>
    match m w with
    | (Done a, w') => k a w'
    | (Raised e, w') => (Raised e, w')
    | (SysExit c, w') => (SysExit c, w')
    end.

Definition raise {A} (e : exn) : M A := fun w => (Raised e, w).

(** [sys.exit(code)]. *)
Definition sys_exit {A} (code : Z) : M A := fun w => (SysExit code, w).

(** [try: body  except Exception: handler]. *)
Definition try_except {A} (body : M A) (handler : exn -> M A) : M A :=
  fun w =>
    match body w with
    | (Raised e, w') => handler e w'
    | r => r
    end.

Declare Scope py_scope.
Delimit Scope py_scope with py.
Notation "x <- m ;; k" := (bind m (fun x => k))
  (at level 61, m at next level, right associativity) : py_scope.
Notation "m ;; k" := (bind m (fun _ => k))
  (at level 61, right associativity) : py_scope.
Local Open Scope py_scope.

Definition emit (e : event) : M unit :=
  fun w => (Done tt, set_trace (trace w ++ [e]) w).

(** [time.time()]. *)
Definition time_time : M Q := fun w => (Done (now w), w).

(** [time.sleep(d)]: the clock moves on by [d]. *)
Definition time_sleep (d : Q) : M unit :=
  emit (EvSleep d) ;; fun w => (Done tt, set_now (now w + d)%Q w).

(** A [for] loop whose body may [return]: [Next] when the body fell
    through, [Return r] when it executed [return r]. *)
Inductive flow (R : Type) : Type :=
| Next
| Return (r : R).
Arguments Next {R}.
Arguments Return {R} r.

Fixpoint for_each {X R} (xs : list X) (body : X -> M (flow R)) : M (flow R) :=
  match xs with
  | [] => ret Next
  | x :: rest =>
      f <- body x ;;
      match f with
      | Next => for_each rest body
      | Return r => ret (Return r)
      end
  end.

(** A loop body without [return]. *)
Definition for_ {X} (xs : list X) (body : X -> M unit) : M unit :=
  for_each (R := unit) xs (fun x => body x ;; ret Next) ;; ret tt.

(** ** Library calls *)

(** Library functions whose results are taken as given. *)
Record Runtime : Type := MkRuntime {
  strftime : string -> Q -> string;       (* time.strftime(fmt) at a clock reading *)
  int_of_str : string -> option Z;        (* int(s), None: ValueError *)
  json_loads : string -> option json      (* json.loads(s), None: JSONDecodeError *)
}.

(** [v[k]] for a string key. *)
Definition subscript (v : json) (k : string) : M json :=
  match v with
  | JObj fields =>
      match dict_lookup k fields with
      | Some x => ret x
      | None => raise KeyError
      end
  | _ => raise TypeError
  end.

(** [v.get(k, default)]. *)
Definition dict_get (v : json) (k : string) (default : json) : M json :=
  match v with
  | JObj fields =>
      ret (match dict_lookup k fields with Some x => x | None => default end)
  | _ => raise AttributeError
  end.

(** [response.json()] and [json.loads(response.text.strip())]. *)
Definition response_json (r : response) : M json :=
  match resp_json r with
  | Some v => ret v
  | None => raise JSONDecodeError
  end.

Definition get_tm : M VeoliaTokenManager := fun w => (Done (token_manager w), w).

Definition set_tm_token (v : json) : M unit :=
  fun w =>
    let m := token_manager w in
    (Done tt, set_token_manager
                (TokenManager (tm_client_id m) (tm_client_secret m) v (tm_expiry m)) w).

Definition set_tm_expiry (t : Q) : M unit :=
  fun w =>
    let m := token_manager w in
    (Done tt, set_token_manager
                (TokenManager (tm_client_id m) (tm_client_secret m) (tm_token m) t) w).

(** [requests.post(token_url, headers=headers, data=data)]. *)
Definition post_token (client_id client_secret : string) : M response :=
  emit (EvTokenPost client_id client_secret) ;;
  fun w =>
    match token_endpoint w with
    | [] => (Raised RequestException, w)
    | Fails :: rest => (Raised RequestException, set_token_endpoint rest w)
    | Responds r :: rest => (Done r, set_token_endpoint rest w)
    end.

(** [requests.post(api_base_url, headers=headers, json=payload, timeout=30)]. *)
Definition post_api (url : string) (bearer : json) (body : payload) : M response :=
  emit (EvApiPost url bearer body) ;;
  fun w =>
    match api_endpoint w with
    | [] => (Raised RequestException, w)
    | Fails :: rest => (Raised RequestException, set_api_endpoint rest w)
    | Responds r :: rest => (Done r, set_api_endpoint rest w)
    end.

(** [random.uniform(0, 1)]. *)
Definition random_uniform01 : M Q :=
  fun w =>
    match uniform01 w with
    | [] => (Done 0%Q, w)
    | u :: rest => (Done u, set_uniform01 rest w)
    end.

(** [''.join(random.choices(ascii_lowercase + digits, k=6))]. *)
Definition random_token : M string :=
  fun w =>
    match random_str w with
    | [] => (Done "aaaaaa", w)
    | s :: rest => (Done s, set_random_str rest w)
    end.

Definition find_file (p : path) (fs : list file) : option file :=
  find (fun f => path_eqb (f_path f) p) fs.

Definition without_file (p : path) (fs : list file) : list file :=
  filter (fun f => negb (path_eqb (f_path f) p)) fs.

(** [open(p, "rb").read()]. *)
Definition read_file (p : path) : M string :=
  fun w =>
    match find_file p (files w) with
    | Some f => (Done (f_data f), w)
    | None => (Raised OSError, w)
    end.

(** Creating or overwriting [p] with [data]. *)
Definition write_file (p : path) (data : string) : M unit :=
  emit (EvWrite p) ;;
  fun w => (Done tt, set_files (File p (now w) data true true :: without_file p (files w)) w).

(** [os.makedirs(dir, exist_ok=True)]. *)
Definition os_makedirs (dir : string) : M unit :=
  emit (EvMakedirs dir) ;;
  fun w => if makedirs_ok w then (Done tt, w) else (Raised OSError, w).

(** [os.path.getmtime(p)]. *)
Definition getmtime (p : path) : M Q :=
  fun w =>
    match find_file p (files w) with
    | Some f => if f_stat_ok f then (Done (f_mtime f), w) else (Raised OSError, w)
    | None => (Raised OSError, w)
    end.

(** [os.remove(p)]. *)
Definition os_remove (p : path) : M unit :=
  fun w =>
    match find_file p (files w) with
    | Some f =>
        if f_removable f
        then (Done tt, set_trace (trace w ++ [EvRemove p])
                         (set_files (without_file p (files w)) w))
        else (Raised OSError, w)
    | None => (Raised OSError, w)
    end.

(** [s.endswith(suffix)]. *)
Definition ends_with (suffix s : string) : bool :=
  (String.length suffix <=? String.length s)%nat &&
  String.eqb (substring (String.length s - String.length suffix)
                        (String.length suffix) s) suffix.

(** [fnmatch] of a base name against ["*.jpg"] as [glob] applies it: a
    leading dot is not matched by [*]. *)
Definition matches_star_jpg (base : string) : bool :=
  negb (prefix "." base) && ends_with ".jpg" base.

(** [glob.glob(os.path.join(dir, "*.jpg"))]. *)
Definition glob_jpg (dir : string) : M (list path) :=
  fun w =>
    (Done (map f_path
             (filter (fun f => String.eqb (parent (f_path f)) dir
                               && matches_star_jpg (name (f_path f)))
                     (files w))), w).

(** [cam = cv2.VideoCapture(index); ret, frame = cam.read(); cam.release()]. *)
Definition cam_read (index : Z) : M (option string) :=
  emit (EvCamRead index) ;;
  fun w =>
    match webcam w with
    | [] => (Done None, w)
    | r :: rest => (Done r, set_webcam rest w)
    end.

(** [requests.get(snapshot_url, stream=True, timeout=10)]. *)
Definition get_snapshot (host : json) (rs : string) (user password : json)
  : M snapshot_outcome :=
  emit (EvSnapshotGet host rs user password) ;;
  fun w =>
    match snapshot_endpoint w with
    | [] => (Raised RequestException, w)
    | SnapshotFails :: rest => (Raised RequestException, set_snapshot_endpoint rest w)
    | r :: rest => (Done r, set_snapshot_endpoint rest w)
    end.

(** [upload_file(file_path=p, ...)] of [utils/drive_uploader.py]. *)
Definition upload_file (p : path) : M json :=
  emit (EvUpload p) ;;
  fun w =>
    match uploads w with
    | [] => (Done JNull, w)
    | Uploaded v :: rest => (Done v, set_uploads rest w)
    | UploadRaises :: rest => (Raised OSError, set_uploads rest w)
    end.

(** [int(q)] of a number: truncation towards zero. *)
Definition Qtrunc (q : Q) : Z := Z.quot (Qnum q) (Zpos (Qden q)).

Section Engine.

Variable rt : Runtime.

(** [int(v)]. *)
Definition py_int (v : json) : M Z :=
  match v with
  | JNum q => ret (Qtrunc q)
  | JBool b => ret (if b then 1 else 0)
  | JStr s =>
      match int_of_str rt s with
      | Some z => ret z
      | None => raise ValueError
      end
  | _ => raise TypeError
  end.

(** ** analysis/veolia_analysis.py *)

(** [VeoliaTokenManager.get_token]. *)
Definition get_token : M json :=
  current_time <- time_time ;;
  self <- get_tm ;;
  if py_truthy (tm_token self) && Qltb current_time (tm_expiry self - 60)
  then ret (tm_token self)
  else
    try_except
      (response <- post_token (tm_client_id self) (tm_client_secret self) ;;
       if status_code response =? 200 then
         token_data <- response_json response ;;
         access_token <- subscript token_data "access_token" ;;
         set_tm_token access_token ;;
         expires_in <- dict_get token_data "expires_in" (JNum 3600) ;;
         lifetime <- py_int expires_in ;;
         set_tm_expiry (current_time + inject_Z lifetime) ;;
         self' <- get_tm ;;
         ret (tm_token self')
       else ret JNull)
      (fun _ => ret JNull).

(** One pass of the body of [for attempt in range(retries)]. *)
Definition api_attempt (api_base_url : string) (bearer : json) (body : payload)
    (attempt : Z) : M (flow json) :=
  r <- try_except
         (response <- post_api api_base_url bearer body ;;
          if status_code response =? 200 then
            try_except
              (result <- response_json response ;; ret (Return result))
              (fun e => match e with
                        | JSONDecodeError => ret (Return JNull)
                        | _ => raise e
                        end)
          else ret Next)
         (fun _ => ret Next) ;;
  match r with
  | Return v => ret (Return v)
  | Next =>
      u <- random_uniform01 ;;
      time_sleep (inject_Z (2 ^ attempt) + u) ;;
      ret Next
  end.

Definition api_payload (user_email prompt image : string) : payload :=
  Payload user_email prompt image "gemini-pro-vision-1.5" (1 # 10).

(** [analyze_image_veolia]. *)
Definition analyze_image_veolia (image_path : path) (prompt : string)
    (user_email api_base_url : string) (retries : Z) : M json :=
  image <- try_except (b <- read_file image_path ;; ret (Some b))
                      (fun _ => ret None) ;;
  match image with
  | None => ret JNull
  | Some image_b64 =>
      access_token <- get_token ;;
      if negb (py_truthy access_token) then ret JNull
      else
        f <- for_each (py_range retries)
               (api_attempt api_base_url access_token
                  (api_payload user_email prompt image_b64)) ;;
        match f with
        | Return v => ret v
        | Next => ret JNull
        end
  end.

(** ** camera/local_camera.py *)

Definition image_filename (filename_prefix : string) (t : Q) : string :=
  filename_prefix ++ "_" ++ strftime rt "%Y%m%d-%H%M%S" t ++ ".jpg".

(** One pass of the body of [for attempt in range(retries)]. *)
Definition local_attempt (image_dir filename_prefix : string) (camera_index : Z)
    (attempt : Z) : M (flow (option path)) :=
  frame <- cam_read camera_index ;;
  match frame with
  | Some data =>
      t <- time_time ;;
      let filepath := path_join image_dir (image_filename filename_prefix t) in
      write_file filepath data ;;
      ret (Return (Some filepath))
  | None =>
      time_sleep 1 ;;
      ret Next
  end.

(** [capture_image_local]. *)
Definition capture_image_local (image_dir filename_prefix : string)
    (camera_index : Z) (retries : Z) : M (option path) :=
  os_makedirs image_dir ;;
  f <- for_each (py_range retries)
         (local_attempt image_dir filename_prefix camera_index) ;;
  match f with
  | Return r => ret r
  | Next => ret None
  end.

(** ** camera/reolink_camera.py *)

(** A value used where a [str] path is required. *)
Definition as_str (v : json) : M string :=
  match v with
  | JStr s => ret s
  | _ => raise TypeError
  end.

(** One pass of the body of [for attempt in range(retries)]. *)
Definition reolink_attempt (ip : json) (rs : string) (user password : json)
    (filepath : path) (attempt : Z) : M (flow (option path)) :=
  r <- try_except
         (response <- get_snapshot ip rs user password ;;
          match response with
          | Snapshot status body stream_ok =>
              if status =? 200 then
                write_file filepath "" ;;
                (if stream_ok then write_file filepath body
                 else raise RequestException) ;;
                ret (Return (Some filepath))
              else ret Next
          | SnapshotFails => raise RequestException
          end)
         (fun _ => ret Next) ;;
  match r with
  | Return v => ret (Return v)
  | Next => time_sleep 1 ;; ret Next
  end.

(** [capture_image_reolink]. *)
Definition capture_image_reolink (config : json) (filename_prefix : string)
    (retries : Z) : M (option path) :=
  camera_config <- dict_get config "camera" (JObj []) ;;
  ip <- dict_get camera_config "ip" JNull ;;
  user <- dict_get camera_config "user" JNull ;;
  password <- dict_get camera_config "password" JNull ;;
  if negb (py_truthy ip && py_truthy user && py_truthy password) then ret None
  else
    image_dir_v <- dict_get config "image_dir" (JStr "captured_images") ;;
    image_dir <- as_str image_dir_v ;;
    os_makedirs image_dir ;;
    rs <- random_token ;;
    t <- time_time ;;
    let filepath := path_join image_dir (image_filename filename_prefix t) in
    f <- for_each (py_range retries)
           (reolink_attempt ip rs user password filepath) ;;
    match f with
    | Return r => ret r
    | Next => ret None
    end.

(** ** utils/helpers.py *)

(** The body of [for file in files]. *)
Definition cleanup_one (now_ max_age_seconds : Q) (file : path) : M unit :=
  try_except
    (mtime <- getmtime file ;;
     let file_age := (now_ - mtime)%Q in
     if Qltb max_age_seconds file_age then os_remove file else ret tt)
    (fun _ => ret tt).

(** [cleanup_images]; the function has no [return] statement, so the
    call evaluates to [None]. *)
Definition cleanup_images (image_dir : string) (max_age_seconds : Q) : M json :=
  now_ <- time_time ;;
  found <- glob_jpg image_dir ;;
  for_ found (cleanup_one now_ max_age_seconds) ;;
  ret JNull.

(** ** capture_dataset.py *)

(** The locals of [main] that the loop reads. *)
Record DatasetLocals : Type := MkDatasetLocals {
  dl_config : list (string * json);
  dl_capture_interval : Q;
  dl_max_duration_seconds : option Q;
  dl_dataset_dir : string;
  dl_cam_type : string;
  dl_camera_index : Z;
  dl_drive_enabled : bool;
  dl_drive_folder_id : json;
  dl_start_time : Q
}.

(** How the [try] block of one iteration was left. *)
Inductive try_exit : Type :=
| Continued          (* by [continue] *)
| FellThrough.       (* off its end *)

(** How one iteration of [while True] was left. *)
Inductive loop_ctl : Type :=
| LoopAgain
| LoopBreak.

(** Step 7: the optional upload, inside its own [try]. *)
Definition dataset_upload (L : DatasetLocals) (image_path : path) : M unit :=
  if dl_drive_enabled L then
    if negb (py_truthy (dl_drive_folder_id L)) then ret tt
    else try_except (file_id <- upload_file image_path ;; ret tt)
                    (fun _ => ret tt)
  else ret tt.

(** The [try] block of one iteration, with [consecutive_failures] on
    entry; yields the way it was left and the counter after it. *)
Definition dataset_try_body (max_failures : Z) (L : DatasetLocals)
    (consecutive_failures : Z) : M (try_exit * Z) :=
  t <- time_time ;;
  let today := strftime rt "%Y%m%d" t in
  let daily_dir := dl_dataset_dir L ++ "/" ++ today in
  os_makedirs daily_dir ;;
  r <- (if String.eqb (dl_cam_type L) "reolink" then
          let temp_config := JObj (dict_set "image_dir" (JStr daily_dir) (dl_config L)) in
          image_path <- capture_image_reolink temp_config "dataset_image" 3 ;;
          match image_path with
          | None =>
              let consecutive_failures := consecutive_failures + 1 in
              if consecutive_failures >=? max_failures then sys_exit 1
              else time_sleep 10 ;; ret (None, consecutive_failures)
          | Some p => ret (Some p, 0)
          end
        else
          image_path <- capture_image_local daily_dir "dataset_image"
                          (dl_camera_index L) 3 ;;
          match image_path with
          | None =>
              let consecutive_failures := consecutive_failures + 1 in
              if consecutive_failures >=? max_failures then sys_exit 1
              else time_sleep 10 ;; ret (None, consecutive_failures)
          | Some p => ret (Some p, 0)
          end) ;;
  match r with
  | (None, consecutive_failures) => ret (Continued, consecutive_failures)
  | (Some image_path, consecutive_failures) =>
      dataset_upload L image_path ;;
      ret (FellThrough, consecutive_failures)
  end.

(** One iteration of [while True] in [main].  No statement of the
    [try] block can raise after the counter has been assigned, so the
    handler resumes with the counter the iteration started with. *)
Definition dataset_iteration (max_failures : Z) (L : DatasetLocals)
    (consecutive_failures : Z) : M (loop_ctl * Z) :=
  loop_start <- time_time ;;
  stop <- match dl_max_duration_seconds L with
          | Some limit =>
              t <- time_time ;;
              ret (Qle_bool limit (t - dl_start_time L))
          | None => ret false
          end ;;
  if (stop : bool) then ret (LoopBreak, consecutive_failures)
  else
    r <- try_except (dataset_try_body max_failures L consecutive_failures)
                    (fun _ => time_sleep 10 ;; ret (Continued, consecutive_failures)) ;;
    match r with
    | (Continued, consecutive_failures) => ret (LoopAgain, consecutive_failures)
    | (FellThrough, consecutive_failures) =>
        loop_end <- time_time ;;
        let elapsed := (loop_end - loop_start)%Q in
        let remaining := (dl_capture_interval L - elapsed)%Q in
        (if Qltb 0 remaining then time_sleep remaining else ret tt) ;;
        ret (LoopAgain, consecutive_failures)
    end.





(** ** main.py *)





End Engine.

(** ** Predicates and sample data used in the statements *)

(** The guard of [get_token]: a truthy cached token that is still more
    than 60 seconds from expiry. *)
Definition cache_fresh (w : World) : bool :=
  py_truthy (tm_token (token_manager w))
  && Qltb (now w) (tm_expiry (token_manager w) - 60).

(** The next answer of the token endpoint is a failure of the refresh:
    a response outside 200..299, or no response at all. *)
Definition refresh_fails (script : list http_outcome) : Prop :=
  match script with
  | Responds r :: _ => ~ (200 <= status_code r < 300)
  | Fails :: _ => True
  | [] => True
  end.

(** The body [{access_token: tok, expires_in: lifetime}]. *)
Definition token_body (tok : string) (lifetime : Z) : json :=
  JObj [("access_token", JStr tok); ("expires_in", JNum (inject_Z lifetime))].

Definition token_response (tok : string) (lifetime : Z) : http_outcome :=
  Responds (Response 200 "" (Some (token_body tok lifetime))).

(** A runtime whose [strftime] prints the whole seconds of the reading. *)
Definition sample_runtime : Runtime :=
  MkRuntime (fun _ t => NilZero.string_of_int (Z.to_int (Qfloor t)))
            (fun _ => None) (fun _ => None).

Definition empty_world : World :=
  MkWorld 0 (new_token_manager "id" "secret") [] [] [] [] [] [] [] true [] [].

(** An answer of the analysis endpoint after which the client tries
    again: a status other than 200, or an exception of the transport. *)
Definition retryable (o : http_outcome) : Prop :=
  match o with
  | Responds r => status_code r <> 200
  | Fails => True
  end.

(** The first [n] answers still to come are all retryable; past the end
    of the script every request raises. *)
Definition all_retryable (n : nat) (script : list http_outcome) : Prop :=
  Forall retryable (firstn n script).

(** What the retry loop may add to the trace when it runs with the
    header [bearer]: requests carrying that header, and sleeps. *)
Definition loop_event (url : string) (bearer : json) (body : payload) (e : event) : Prop :=
  e = EvApiPost url bearer body \/ exists d, e = EvSleep d.

(** The events of [attempts] failed passes of the loop body, with the
    jitter draws [us] (0 when the draws run out). *)
Fixpoint backoff_trace (url : string) (bearer : json) (body : payload)
    (attempts : list Z) (us : list Q) : list event :=
  match attempts with
  | [] => []
  | a :: rest =>
      EvApiPost url bearer body
      :: EvSleep (inject_Z (2 ^ a) + hd 0%Q us)
      :: backoff_trace url bearer body rest (tl us)
  end.



Definition is_api_post (e : event) : bool :=
  match e with EvApiPost _ _ _ => true | _ => false end.

Definition is_token_post (e : event) : bool :=
  match e with EvTokenPost _ _ => true | _ => false end.

(** The number of analysis requests in a trace. *)
Definition api_posts (tr : list event) : nat := List.length (filter is_api_post tr).

(** The world after one failed pass of the loop body. *)
Definition after_failure (url : string) (bearer : json) (body : payload)
    (attempt : Z) (w : World) : World :=
  let d := (inject_Z (2 ^ attempt) + hd 0%Q (uniform01 w))%Q in
  set_now (now w + d)
    (set_trace (trace w ++ [EvApiPost url bearer body; EvSleep d])
       (set_uniform01 (tl (uniform01 w))
          (set_api_endpoint (tl (api_endpoint w)) w))).

Fixpoint after_failures (url : string) (bearer : json) (body : payload)
    (attempts : list Z) (w : World) : World :=
  match attempts with
  | [] => w
  | a :: rest => after_failures url bearer body rest (after_failure url bearer body a w)
  end.



Definition sample_image : path := Path "captured_images" "image_1.jpg".

Definition sample_file : file := File sample_image 0 "JPEG" true true.

(** A world with one image on disk, a token endpoint that grants
    ["abc"] for an hour, and the given answers of the analysis endpoint. *)
Definition analysis_world (script : list http_outcome) : World :=
  set_api_endpoint script
    (set_token_endpoint [token_response "abc" 3600]
       (set_files [sample_file] empty_world)).

(** Three analysis requests that all fail, with jitter draws 1/2, 1/4,
    3/4, and a token that is granted for [lifetime] seconds. *)
Definition failing_analysis_world (lifetime : Z) : World :=
  set_uniform01 [1 # 2; 1 # 4; 3 # 4]
    (set_token_endpoint [token_response "abc" lifetime; token_response "xyz" lifetime]
       (analysis_world [Fails; Responds (Response 500 "" None); Fails])).


Definition is_snapshot_get (e : event) : bool :=
  match e with EvSnapshotGet _ _ _ _ => true | _ => false end.

Definition snapshot_gets (tr : list event) : nat := List.length (filter is_snapshot_get tr).

(** The paths written to, in order. *)
Fixpoint writes (tr : list event) : list path :=
  match tr with
  | [] => []
  | EvWrite p :: rest => p :: writes rest
  | _ :: rest => writes rest
  end.


(** The world after one pass of the local loop body that got no frame. *)
Definition after_local_failure (camera_index : Z) (w : World) : World :=
  set_now (now w + 1)
    (set_trace (trace w ++ [EvCamRead camera_index; EvSleep 1])
       (set_webcam (tl (webcam w)) w)).

(** A snapshot request that does not produce the file: a status other
    than 200, a transport exception, or a body whose stream breaks. *)
Definition snapshot_fails (o : snapshot_outcome) : Prop :=
  match o with
  | Snapshot status _ stream_ok => status <> 200 \/ stream_ok = false
  | SnapshotFails => True
  end.

Definition no_snapshots (n : nat) (script : list snapshot_outcome) : Prop :=
  Forall snapshot_fails (firstn n script).

(** The world after one failed pass of the network loop body; a broken
    stream leaves the (empty) file behind. *)
Definition after_reolink_failure (ip : json) (rs : string) (user password : json)
    (filepath : path) (w : World) : World :=
  match snapshot_endpoint w with
  | Snapshot status _ _ :: rest =>
      if status =? 200 then
        set_now (now w + 1)
          (set_trace (trace w ++ [EvSnapshotGet ip rs user password; EvWrite filepath;
                                  EvSleep 1])
             (set_files (File filepath (now w) "" true true
                           :: without_file filepath (files w))
                (set_snapshot_endpoint rest w)))
      else
        set_now (now w + 1)
          (set_trace (trace w ++ [EvSnapshotGet ip rs user password; EvSleep 1])
             (set_snapshot_endpoint rest w))
  | _ =>
      set_now (now w + 1)
        (set_trace (trace w ++ [EvSnapshotGet ip rs user password; EvSleep 1])
           (set_snapshot_endpoint (tl (snapshot_endpoint w)) w))
  end.

(** The camera section of [config] is complete and names these values. *)
Definition reolink_configured (config : json) (ip user password : json)
    (image_dir : string) : Prop :=
  exists fields cam,
    config = JObj fields
    /\ dict_lookup "camera" fields = Some (JObj cam)
    /\ dict_lookup "ip" cam = Some ip
    /\ dict_lookup "user" cam = Some user
    /\ dict_lookup "password" cam = Some password
    /\ py_truthy ip = true /\ py_truthy user = true /\ py_truthy password = true
    /\ match dict_lookup "image_dir" fields with
       | Some v => v = JStr image_dir
       | None => image_dir = "captured_images"
       end.

Definition sample_config : json :=
  JObj [("camera", JObj [("type", JStr "reolink"); ("ip", JStr "10.0.0.2");
                         ("user", JStr "admin"); ("password", JStr "pw")])].

(** A world whose webcam yields a frame at the second read and whose
    network camera delivers at the third request. *)
Definition capture_world : World :=
  set_webcam [None; Some "frame"]
    (set_snapshot_endpoint [Snapshot 503 "" true; SnapshotFails; Snapshot 200 "jpeg" true]
       (set_now 100 empty_world)).

(** [glob] lists this entry for the pattern [dir/*.jpg]. *)
Definition considered (dir : string) (f : file) : bool :=
  String.eqb (parent (f_path f)) dir && matches_star_jpg (name (f_path f)).

(** The entry's age exceeds [max_age_seconds], and both reading its
    time stamp and removing it work. *)
Definition old_and_deletable (now_ max_age_seconds : Q) (f : file) : bool :=
  f_stat_ok f && Qltb max_age_seconds (now_ - f_mtime f) && f_removable f.

(** The world after the loop body of [cleanup_images] has handled [p]. *)
Definition sweep_one (now_ max_age_seconds : Q) (w : World) (p : path) : World :=
  match find_file p (files w) with
  | Some f =>
      if old_and_deletable now_ max_age_seconds f
      then set_trace (trace w ++ [EvRemove p]) (set_files (without_file p (files w)) w)
      else w
  | None => w
  end.

Definition is_remove (e : event) : bool :=
  match e with EvRemove _ => true | _ => false end.

(** The number of files removed in a trace. *)
Definition removals (tr : list event) : nat := List.length (filter is_remove tr).

(** A working directory with an old image, a recent image, an old
    image that cannot be removed, an old text file, and an old image in a
    subdirectory; the clock reads 1000. *)
Definition sweep_world : World :=
  set_files [File (Path "captured_images" "image_a.jpg") 100 "a" true true;
             File (Path "captured_images" "image_b.jpg") 900 "b" true true;
             File (Path "captured_images" "image_c.jpg") 100 "c" true false;
             File (Path "captured_images" "notes.txt") 100 "n" true true;
             File (Path "captured_images/old" "image_d.jpg") 100 "d" true true;
             File (Path "captured_images" "image_e.jpg") 100 "e" true true]
    (set_now 1000 empty_world).

(** Step 4a of the dataset loop: a maximum duration is set and has
    elapsed. *)
Definition duration_reached (L : DatasetLocals) (w : World) : bool :=
  match dl_max_duration_seconds L with
  | Some limit => Qle_bool limit (now w - dl_start_time L)
  | None => false
  end.

(** The daily directory of an iteration that starts in [w]. *)
Definition daily_dir (rt : Runtime) (L : DatasetLocals) (w : World) : string :=
  dl_dataset_dir L ++ "/" ++ strftime rt "%Y%m%d" (now w).

(** The capture call of the dataset loop (step 6), by camera type. *)
Definition dataset_capture (rt : Runtime) (L : DatasetLocals) (dir : string)
  : M (option path) :=
  if String.eqb (dl_cam_type L) "reolink"
  then capture_image_reolink rt (JObj (dict_set "image_dir" (JStr dir) (dl_config L)))
         "dataset_image" 3
  else capture_image_local rt dir "dataset_image" (dl_camera_index L) 3.



(** The pause of a failed iteration. *)
Definition paused (w : World) : World :=
  set_now (now w + 10) (set_trace (trace w ++ [EvSleep 10]) w).

(** A computation that never ends in [SystemExit]. *)
Definition never_exits {A} (m : M A) : Prop :=
  forall w c w', m w <> (SysExit c, w').

Definition sample_dataset_locals : DatasetLocals :=
  MkDatasetLocals [] 60 None "dataset_images" "local" 0 false JNull 0.




(** ** Further predicates used in the statements *)

(** [int(e)] raises for this value. *)
Definition int_fails (rt : Runtime) (e : json) : Prop :=
  match e with
  | JNull | JArr _ | JObj _ => True
  | JStr s => int_of_str rt s = None
  | JNum _ | JBool _ => False
  end.

(** A 200 answer of the token endpoint from which no token can be
    read: the body is not JSON, is not an object, or has no
    [access_token] member. *)
Definition no_token_in (r : response) : Prop :=
  match resp_json r with
  | None => True
  | Some (JObj fields) => dict_lookup "access_token" fields = None
  | Some _ => True
  end.

(** The manager's fields after assignments. *)
Definition with_token (tok : json) (m : VeoliaTokenManager) : VeoliaTokenManager :=
  TokenManager (tm_client_id m) (tm_client_secret m) tok (tm_expiry m).

(** The world after one token request has been sent and answered. *)
Definition after_token_post (w : World) : World :=
  set_token_endpoint (tl (token_endpoint w))
    (set_trace (trace w ++ [EvTokenPost (tm_client_id (token_manager w))
                                        (tm_client_secret (token_manager w))]) w).

(** [d.get(k, default)] on the field list of a dict. *)
Definition get_or (k : string) (default : json) (fields : list (string * json)) : json :=
  match dict_lookup k fields with
  | Some x => x
  | None => default
  end.

(** A world whose network camera answers 200 once with a stream that
    breaks, and fails otherwise. *)
Definition broken_stream_world : World :=
  set_snapshot_endpoint [SnapshotFails; Snapshot 200 "jpeg" false; Snapshot 503 "" true]
    (set_now 100 empty_world).

(** The files a sweep of [dir] at clock reading [t] keeps. *)
Definition kept (dir : string) (t max_age_seconds : Q) (f : file) : bool :=
  negb (considered dir f && old_and_deletable t max_age_seconds f).



Definition upload_locals : DatasetLocals :=
  MkDatasetLocals [] 60 None "dataset_images" "local" 0 true (JStr "folder") 0.

Definition reolink_locals : DatasetLocals :=
  MkDatasetLocals
    [("image_dir", JStr "elsewhere");
     ("camera", JObj [("type", JStr "reolink"); ("ip", JStr "10.0.0.2");
                      ("user", JStr "admin"); ("password", JStr "pw")])]
    60 None "dataset_images" "reolink" 0 false JNull 0.


(** ** config/settings.py *)

(** What reading [config.yaml] gives: the document as parsed by
    [yaml.safe_load], or an exception of [open] or of the parser. *)
Inductive yaml_outcome : Type :=
| YamlDocument (v : json)
| YamlRaises.

(** How [load_config] ends: it returns the configuration, raises the
    [Exception] it wraps read errors in, or raises the [TypeError] of an
    item assignment on a document that is not a mapping. *)
Inductive config_outcome : Type :=
| ConfigLoaded (config : json)
| ConfigReadError
| ConfigTypeError.

(** [os.getenv(k)], once [load_dotenv()] has run. *)
Definition env_value (getenv : string -> option string) (k : string) : json :=
  match getenv k with
  | Some s => JStr s
  | None => JNull
  end.

(** [load_config]. *)
Definition load_config (yaml : yaml_outcome) (getenv : string -> option string)
  : config_outcome :=
  match yaml with
  | YamlRaises => ConfigReadError
  | YamlDocument config =>
      let veolia_client_id := env_value getenv "VEOLIA_CLIENT_ID" in
      let veolia_client_secret := env_value getenv "VEOLIA_CLIENT_SECRET" in
      let user_email := env_value getenv "USER_EMAIL" in
      let veolia_api_base_url := env_value getenv "VEOLIA_API_BASE_URL" in
      match config with
      | JObj fields =>
          let fields := dict_set "VEOLIA_CLIENT_ID" veolia_client_id fields in
          let fields := dict_set "VEOLIA_CLIENT_SECRET" veolia_client_secret fields in
          let fields := dict_set "USER_EMAIL" user_email fields in
          let fields := dict_set "VEOLIA_API_BASE_URL" veolia_api_base_url fields in
          ConfigLoaded (JObj fields)
      | _ => ConfigTypeError
      end
  end.

(** ** main.py: the lines of [main_loop] before the loop *)

(** The values [main_loop] has read when it reaches [while True]. *)
Record MainLoopEntry : Type := MkMainLoopEntry {
  ml_prompt : json;
  ml_cam_type : string;
  ml_camera_index : json;
  ml_image_dir : json;
  ml_capture_interval : json;
  ml_cleanup_age : json;
  ml_client_id : json;
  ml_client_secret : json;
  ml_user_email : json;
  ml_api_base_url : json
}.

(** [v.lower()], with [str.lower] taken as given. *)
Definition py_lower (lower : string -> string) (v : json) : M string :=
  match v with
  | JStr s => ret (lower s)
  | _ => raise AttributeError
  end.

(** Lines 33 to 52 of [main_loop]: [None] when the function returns
    before the loop, the values read when it goes on to build the token
    manager and to loop. *)
Definition main_loop_prologue (lower : string -> string) (config : json)
  : M (option MainLoopEntry) :=
  prompt <- dict_get config "prompt" JNull ;;
  if negb (py_truthy prompt) then ret None
  else
    camera <- dict_get config "camera" (JObj []) ;;
    cam_type_v <- dict_get camera "type" (JStr "local") ;;
    cam_type <- py_lower lower cam_type_v ;;
    camera_index <- dict_get config "camera_index" (JNum 0) ;;
    image_dir <- dict_get config "image_dir" (JStr "captured_images") ;;
    capture_interval <- dict_get config "capture_interval" (JNum 10) ;;
    cleanup_age <- dict_get config "cleanup_age" (JNum 300) ;;
    veolia_client_id <- dict_get config "VEOLIA_CLIENT_ID" JNull ;;
    veolia_client_secret <- dict_get config "VEOLIA_CLIENT_SECRET" JNull ;;
    user_email <- dict_get config "USER_EMAIL" JNull ;;
    api_base_url <- dict_get config "VEOLIA_API_BASE_URL" JNull ;;
    if negb (py_truthy veolia_client_id && py_truthy veolia_client_secret
             && py_truthy user_email && py_truthy api_base_url)
    then ret None
    else ret (Some (MkMainLoopEntry prompt cam_type camera_index image_dir
                      capture_interval cleanup_age veolia_client_id
                      veolia_client_secret user_email api_base_url)).

(** The four settings [load_config] takes from the environment. *)
Definition veolia_keys : list string :=
  ["VEOLIA_CLIENT_ID"; "VEOLIA_CLIENT_SECRET"; "USER_EMAIL"; "VEOLIA_API_BASE_URL"].

(** An environment with all four settings but the user's address. *)
Definition sample_env (k : string) : option string :=
  if String.eqb k "VEOLIA_CLIENT_ID" then Some "id"
  else if String.eqb k "VEOLIA_CLIENT_SECRET" then Some "secret"
  else if String.eqb k "VEOLIA_API_BASE_URL" then Some "https://api.example.org/analyze"
  else None.

Definition sample_document : json :=
  JObj [("prompt", JStr "Is there water on the floor?");
        ("USER_EMAIL", JStr "from-yaml@example.org");
        ("capture_interval", JNum 10)].

(** ** manual-classification/inter-graph-drive.py *)

(** An entry of the Drive listing, with the fields the code asks for. *)
Record drive_file : Type := DriveFile {
  df_id : string;
  df_name : string;
  df_mime : string
}.

(** [f['name'].startswith('normal_')], [f['name'].startswith('anomaly_')]. *)
Definition is_normal (f : drive_file) : bool := prefix "normal_" (df_name f).
Definition is_anomaly (f : drive_file) : bool := prefix "anomaly_" (df_name f).

(** The three lists [load_drive_images] builds from the listing
    [items]; the first becomes [self.drive_files]. *)
Definition pending_files (items : list drive_file) : list drive_file :=
  filter (fun f => negb (is_normal f || is_anomaly f)) items.
Definition normal_files (items : list drive_file) : list drive_file :=
  filter is_normal items.
Definition anomaly_files (items : list drive_file) : list drive_file :=
  filter is_anomaly items.

(** The numbers [load_drive_images] puts on the statistics panel. *)
Record drive_stats : Type := DriveStats {
  stats_total : nat;
  stats_normal : nat;
  stats_anomaly : nat;
  stats_pending : nat
}.

Definition load_stats (items : list drive_file) : drive_stats :=
  DriveStats (List.length items) (List.length (normal_files items))
    (List.length (anomaly_files items)) (List.length (pending_files items)).

(** The part of [DriveImageClassifier] the navigation works on. *)
Record Classifier : Type := MkClassifier {
  drive_files : list drive_file;
  current_file_index : Z;
  current_file_id : option string
}.

(** [download_and_show_image], up to the start of the download
    thread: an index out of range is ignored, another one becomes the
    current index, with the id of the file there. *)
Definition download_and_show_image (index : Z) (c : Classifier) : Classifier :=
  if (index <? 0) || (index >=? Z.of_nat (List.length (drive_files c))) then c
  else
    match nth_error (drive_files c) (Z.to_nat index) with
    | Some file => MkClassifier (drive_files c) index (Some (df_id file))
    | None => c
    end.

(** [next_image]. *)
Definition next_image (c : Classifier) : Classifier :=
  match drive_files c with
  | [] => c
  | _ =>
      let next_index := current_file_index c + 1 in
      let next_index :=
        if next_index >=? Z.of_nat (List.length (drive_files c)) then 0 else next_index in
      download_and_show_image next_index c
  end.

(** [prev_image]. *)
Definition prev_image (c : Classifier) : Classifier :=
  match drive_files c with
  | [] => c
  | _ =>
      let prev_index := current_file_index c - 1 in
      let prev_index :=
        if prev_index <? 0 then Z.of_nat (List.length (drive_files c)) - 1 else prev_index in
      download_and_show_image prev_index c
  end.

(** The name [classify_image] gives the file on Drive. *)
Definition classified_name (classification original_name : string) : string :=
  classification ++ "_" ++ original_name.

Definition renamed (classification : string) (f : drive_file) : drive_file :=
  DriveFile (df_id f) (classified_name classification (df_name f)) (df_mime f).

(** The current index is in range and the current id is the id of the
    file at that index. *)
Definition showing (c : Classifier) : Prop :=
  0 <= current_file_index c < Z.of_nat (List.length (drive_files c))
  /\ option_map df_id (nth_error (drive_files c) (Z.to_nat (current_file_index c)))
     = current_file_id c.

Definition sample_listing : list drive_file :=
  [DriveFile "1" "dataset_image_1.jpg" "image/jpeg";
   DriveFile "2" "normal_dataset_image_2.jpg" "image/jpeg";
   DriveFile "3" "dataset_image_3.jpg" "image/jpeg";
   DriveFile "4" "anomaly_dataset_image_4.jpg" "image/jpeg";
   DriveFile "5" "normal.jpg" "image/png"].

(** ** manual-classification/inter-graph.py *)

(** The fields of [ImageClassificationApp] that capture and
    classification use; the two counts are the numbers on the counter
    labels. *)
Record ClassificationApp : Type := MkApp {
  app_config : list (string * json);
  app_cam_type : string;
  app_camera_index : Z;
  base_dir : string;
  good_dir : string;
  bad_dir : string;
  current_image_path : option path;
  is_capturing : bool;
  good_count : nat;
  bad_count : nat
}.


Definition set_is_capturing (b : bool) (a : ClassificationApp) : ClassificationApp :=
  MkApp (app_config a) (app_cam_type a) (app_camera_index a) (base_dir a) (good_dir a)
    (bad_dir a) (current_image_path a) b (good_count a) (bad_count a).

Definition set_counts (g b : nat) (a : ClassificationApp) : ClassificationApp :=
  MkApp (app_config a) (app_cam_type a) (app_camera_index a) (base_dir a) (good_dir a)
    (bad_dir a) (current_image_path a) (is_capturing a) g b.

(** [os.path.exists(p)]. *)
Definition os_path_exists (p : path) : M bool :=
  fun w =>
    (Done match find_file p (files w) with
          | Some f => f_stat_ok f
          | None => false
          end, w).

(** [os.rename(src, dst)] within one file system: the entry moves and
    replaces an entry at [dst]; a missing source raises. *)
Definition os_rename (src dst : path) : M unit :=
  fun w =>
    match find_file src (files w) with
    | Some f =>
        (Done tt,
         set_files (File dst (f_mtime f) (f_data f) (f_stat_ok f) (f_removable f)
                      :: without_file dst (without_file src (files w))) w)
    | None => (Raised OSError, w)
    end.

(** [len([f for f in os.listdir(dir) if f.endswith('.jpg')])]. *)
Definition count_jpg (dir : string) (fs : list file) : nat :=
  List.length (filter (fun f => String.eqb (parent (f_path f)) dir
                                && ends_with ".jpg" (name (f_path f))) fs).

(** [update_counters]. *)
Definition update_counters (a : ClassificationApp) : M ClassificationApp :=
  fun w => (Done (set_counts (count_jpg (good_dir a) (files w))
                             (count_jpg (bad_dir a) (files w)) a), w).

(** [classify_and_capture], up to the start of the capture thread. *)
Definition classify_and_capture (rt : Runtime) (classification : string)
    (a : ClassificationApp) : M ClassificationApp :=
  match current_image_path a with
  | None => ret a
  | Some current =>
      if is_capturing a then ret a
      else
        let a := set_is_capturing true a in
        try_except
          (let dest_dir := if String.eqb classification "good"
                           then good_dir a else bad_dir a in
           t <- time_time ;;
           let filename := classification ++ "_" ++ strftime rt "%Y%m%d-%H%M%S" t
                           ++ ".jpg" in
           let dest_path := path_join dest_dir filename in
           present <- os_path_exists current ;;
           if (present : bool) then
             os_rename current dest_path ;;
             update_counters a
           else ret a)
          (fun _ => ret a)
  end.



(** Where [classify_and_capture] files an image classified at clock
    reading [t]. *)
Definition destination (rt : Runtime) (classification : string) (a : ClassificationApp)
    (t : Q) : path :=
  path_join (if String.eqb classification "good" then good_dir a else bad_dir a)
    (image_filename rt classification t).

Definition sample_app : ClassificationApp :=
  MkApp [] "local" 0 "dataset_images/19700101" "dataset_images/19700101/good"
    "dataset_images/19700101/bad"
    (Some (Path "dataset_images/19700101" "temp_image_90.jpg")) false 0 0.

Definition app_world : World :=
  set_files [File (Path "dataset_images/19700101" "temp_image_90.jpg") 90 "frame" true true;
             File (Path "dataset_images/19700101/good" "good_50.jpg") 50 "g" true true]
    (set_now 100 empty_world).


(** * Properties *)

(** ** Auxiliary facts *)

Lemma Qltb_lt a b : Qltb a b = true <-> (a < b)%Q.
Proof.
  unfold Qltb. rewrite negb_true_iff. split; intro H.
  - apply Qnot_le_lt. intro L. apply Qle_bool_iff in L. congruence.
  - destruct (Qle_bool b a) eqn:E; [|reflexivity].
    apply Qle_bool_iff in E. exfalso. exact (Qlt_not_le _ _ H E).
Qed.

Lemma Qltb_ge a b : Qltb a b = false <-> (b <= a)%Q.
Proof.
  unfold Qltb. rewrite negb_false_iff. apply Qle_bool_iff.
Qed.

Lemma path_eqb_eq p q : path_eqb p q = true <-> p = q.
Proof.
  destruct p as [d n], q as [d' n']. unfold path_eqb. simpl.
  rewrite andb_true_iff, !String.eqb_eq. split.
  - intros [-> ->]. reflexivity.
  - intros H. inversion H. auto.
Qed.

Lemma path_eqb_refl p : path_eqb p p = true.
Proof. apply path_eqb_eq. reflexivity. Qed.


(** Unfolding of the monad's plumbing. *)
Ltac step_monad :=
  unfold bind, ret, raise, sys_exit, try_except, emit, time_time, time_sleep,
    get_tm, set_tm_token, set_tm_expiry in *; simpl in *.

(** ** The token manager *)



(** A refresh that is answered with a status other than 200, or not
    answered, leaves everything but the request itself as it was. *)
Lemma get_token_not_200 rt w :
  cache_fresh w = false ->
  match token_endpoint w with
  | Responds r :: _ => status_code r <> 200
  | _ => True
  end ->
  get_token rt w
  = (Done JNull,
     set_token_endpoint (tl (token_endpoint w))
       (set_trace (trace w ++ [EvTokenPost (tm_client_id (token_manager w))
                                           (tm_client_secret (token_manager w))]) w)).
Proof.
  unfold cache_fresh, get_token. intros H Hs. step_monad. rewrite H.
  unfold post_token. step_monad.
  destruct (token_endpoint w) as [|[r|] rest] eqn:E; simpl.
  - unfold set_token_endpoint, set_trace. simpl. rewrite E. reflexivity.
  - apply Z.eqb_neq in Hs. rewrite Hs. reflexivity.
  - reflexivity.
Qed.

(** C6: when the refresh request of [get_token] ends in a response
    outside 200..299 or in a transport exception, the call returns [None],
    the token manager (token and expiry) is exactly as before, and exactly
    one request was sent: there is no internal retry. *)
Theorem get_token_failure_keeps_cache rt w :
  cache_fresh w = false ->
  refresh_fails (token_endpoint w) ->
  let (result, w') := get_token rt w in
  result = Done JNull
  /\ token_manager w' = token_manager w
  /\ trace w' = (trace w ++ [EvTokenPost (tm_client_id (token_manager w))
                                         (tm_client_secret (token_manager w))])%list
  /\ token_endpoint w' = tl (token_endpoint w).
Proof.
  intros Hmiss Hfail.
  rewrite get_token_not_200; auto.
  destruct (token_endpoint w) as [|[r|] rest]; simpl in *; auto.
  intro E. apply Hfail. lia.
Qed.

Lemma get_token_failure_keeps_cache_witness :
  let w := set_token_endpoint
             [Responds (Response 503 "unavailable" None); token_response "abc" 10]
             (set_token_manager (TokenManager "id" "secret" (JStr "old") 50) empty_world) in
  let (result, w') := get_token sample_runtime w in
  result = Done JNull
  /\ token_manager w' = token_manager w
  /\ trace w' = (trace w ++ [EvTokenPost "id" "secret"])%list
  /\ token_endpoint w' = tl (token_endpoint w).
Proof.
  intro w.
  apply (get_token_failure_keeps_cache sample_runtime w).
  - reflexivity.
  - simpl. lia.
Defined.





(** ** The analysis client *)

Lemma api_attempt_failed url bearer body attempt w :
  all_retryable 1 (api_endpoint w) ->
  api_attempt url bearer body attempt w
  = (Done Next, after_failure url bearer body attempt w).
Proof.
  unfold all_retryable, api_attempt, post_api, random_uniform01, after_failure.
  intro H. step_monad.
  destruct (api_endpoint w) as [|[r|] rest] eqn:E; simpl.
  - destruct (uniform01 w) eqn:U; simpl; unfold set_now, set_trace, set_uniform01, set_api_endpoint;
      simpl; rewrite ?E, ?U, <- ?app_assoc; reflexivity.
  - inversion H as [|? ? Hr _]; subst. simpl in Hr. apply Z.eqb_neq in Hr. rewrite Hr. simpl.
    destruct (uniform01 w) eqn:U; simpl; unfold set_now, set_trace, set_uniform01, set_api_endpoint;
      simpl; rewrite ?U, <- ?app_assoc; reflexivity.
  - destruct (uniform01 w) eqn:U; simpl; unfold set_now, set_trace, set_uniform01, set_api_endpoint;
      simpl; rewrite ?U, <- ?app_assoc; reflexivity.
Qed.

Lemma api_attempt_200 url bearer body attempt w r rest :
  api_endpoint w = Responds r :: rest ->
  status_code r = 200 ->
  api_attempt url bearer body attempt w
  = (Done (Return (match resp_json r with Some v => v | None => JNull end)),
     set_api_endpoint rest (set_trace (trace w ++ [EvApiPost url bearer body]) w)).
Proof.
  unfold api_attempt, post_api, response_json. intros E S. step_monad.
  rewrite E. simpl. rewrite S. simpl.
  destruct (resp_json r); reflexivity.
Qed.

Lemma all_retryable_S n o script :
  all_retryable (S n) (o :: script) <-> retryable o /\ all_retryable n script.
Proof.
  unfold all_retryable. simpl. split.
  - intro H. inversion H; auto.
  - intros [? ?]. constructor; auto.
Qed.

Lemma all_retryable_nil n : all_retryable n [].
Proof. unfold all_retryable. rewrite firstn_nil. constructor. Qed.

Lemma all_retryable_head n script :
  all_retryable (S n) script -> all_retryable 1 script /\ all_retryable n (tl script).
Proof.
  destruct script as [|o script].
  - intros _. split; apply all_retryable_nil.
  - intro H. apply all_retryable_S in H. destruct H as [Ho Hs]. split; [|exact Hs].
    apply all_retryable_S. split; [exact Ho|]. unfold all_retryable. simpl. constructor.
Qed.

(** The loop over attempts that all fail. *)
Lemma retry_loop_all_fail url bearer body attempts :
  forall w,
    all_retryable (List.length attempts) (api_endpoint w) ->
    for_each attempts (api_attempt url bearer body) w
    = (Done Next, after_failures url bearer body attempts w).
Proof.
  induction attempts as [|a attempts IH]; intros w H; simpl.
  - reflexivity.
  - apply all_retryable_head in H. destruct H as [H1 Hn].
    unfold bind. rewrite api_attempt_failed by exact H1.
    apply IH. exact Hn.
Qed.

Lemma for_each_app {X R} (xs ys : list X) (body : X -> M (flow R)) w :
  for_each (xs ++ ys) body w
  = match for_each xs body w with
    | (Done Next, w') => for_each ys body w'
    | r => r
    end.
Proof.
  revert w. induction xs as [|x xs IH]; intro w; simpl.
  - reflexivity.
  - unfold bind. destruct (body x w) as [[[|r]|e|c] w']; try reflexivity.
    apply IH.
Qed.

Lemma py_range_length n : List.length (py_range n) = Z.to_nat n.
Proof. unfold py_range. rewrite length_map, length_seq. reflexivity. Qed.

(** [range(n)] passes through [k] for every [0 <= k < n]. *)
Lemma py_range_split n k :
  0 <= k < n ->
  py_range n = (py_range k ++ k :: map Z.of_nat (seq (S (Z.to_nat k)) (Z.to_nat n - S (Z.to_nat k))))%list.
Proof.
  intro H. unfold py_range.
  replace (Z.to_nat n) with (Z.to_nat k + S (Z.to_nat n - S (Z.to_nat k)))%nat by lia.
  rewrite seq_app, map_app. simpl.
  rewrite Z2Nat.id by lia.
  replace (Z.to_nat k + S (Z.to_nat n - S (Z.to_nat k)) - S (Z.to_nat k))%nat
    with (Z.to_nat n - S (Z.to_nat k))%nat by lia.
  reflexivity.
Qed.

Lemma after_failures_api url bearer body attempts :
  forall w,
    api_endpoint (after_failures url bearer body attempts w)
    = skipn (List.length attempts) (api_endpoint w).
Proof.
  induction attempts as [|a attempts IH]; intro w; simpl.
  - reflexivity.
  - rewrite IH. simpl. destruct (api_endpoint w); simpl.
    + apply skipn_nil.
    + reflexivity.
Qed.

Lemma after_failures_trace url bearer body attempts :
  forall w,
    trace (after_failures url bearer body attempts w)
    = (trace w ++ backoff_trace url bearer body attempts (uniform01 w))%list.
Proof.
  induction attempts as [|a attempts IH]; intro w; simpl.
  - symmetry. apply app_nil_r.
  - rewrite IH. simpl. rewrite <- app_assoc. reflexivity.
Qed.

Lemma after_failures_token_manager url bearer body attempts :
  forall w,
    token_manager (after_failures url bearer body attempts w) = token_manager w.
Proof.
  induction attempts as [|a attempts IH]; intro w; simpl.
  - reflexivity.
  - rewrite IH. reflexivity.
Qed.

Lemma api_posts_app tr1 tr2 : api_posts (tr1 ++ tr2) = (api_posts tr1 + api_posts tr2)%nat.
Proof. unfold api_posts. rewrite filter_app, length_app. reflexivity. Qed.

Lemma api_posts_backoff url bearer body attempts :
  forall us, api_posts (backoff_trace url bearer body attempts us) = List.length attempts.
Proof.
  induction attempts as [|a attempts IH]; intro us; simpl.
  - reflexivity.
  - unfold api_posts in *. simpl. rewrite IH. reflexivity.
Qed.

(** What [get_token] can change: the manager, the token script, and the
    trace, by at most one token request. *)
Lemma get_token_frame rt w :
  let w1 := snd (get_token rt w) in
  now w1 = now w
  /\ api_endpoint w1 = api_endpoint w
  /\ uniform01 w1 = uniform01 w
  /\ files w1 = files w
  /\ (trace w1 = trace w
      \/ trace w1 = (trace w ++ [EvTokenPost (tm_client_id (token_manager w))
                                             (tm_client_secret (token_manager w))])%list).
Proof.
  unfold get_token. step_monad.
  destruct (py_truthy (tm_token (token_manager w))
            && Qltb (now w) (tm_expiry (token_manager w) - 60)); simpl.
  - repeat split; auto.
  - unfold post_token. step_monad.
    destruct (token_endpoint w) as [|[r|] rest]; simpl; try (repeat split; auto; fail).
    destruct (status_code r =? 200); simpl; try (repeat split; auto; fail).
    unfold response_json. destruct (resp_json r) as [v|]; simpl; try (repeat split; auto; fail).
    unfold subscript. destruct v; simpl; try (repeat split; auto; fail).
    destruct (dict_lookup "access_token" fields); simpl; try (repeat split; auto; fail).
    unfold dict_get; simpl.
    destruct (dict_lookup "expires_in" fields) as [e|]; simpl; try (repeat split; auto; fail).
    unfold py_int. destruct e; simpl; try (repeat split; auto; fail).
    destruct (int_of_str rt s); simpl; repeat split; auto.
Qed.

(** [analyze_image_veolia] once the image is read and a truthy token is
    obtained: the retry loop runs from the world [get_token] left, with
    that token in the header of every pass. *)
Lemma analyze_enters_loop rt w image_path prompt email url retries f tok w1 :
  find_file image_path (files w) = Some f ->
  get_token rt w = (Done tok, w1) ->
  py_truthy tok = true ->
  analyze_image_veolia rt image_path prompt email url retries w
  = match for_each (py_range retries)
            (api_attempt url tok (api_payload email prompt (f_data f))) w1 with
    | (Done (Return v), w') => (Done v, w')
    | (Done Next, w') => (Done JNull, w')
    | (Raised e, w') => (Raised e, w')
    | (SysExit c, w') => (SysExit c, w')
    end.
Proof.
  intros Hf Ht Htok. unfold analyze_image_veolia, read_file. step_monad.
  rewrite Hf. simpl. rewrite Ht. rewrite Htok. simpl.
  destruct (for_each _ _ w1) as [[[|v]|e|c] w']; reflexivity.
Qed.

Lemma skipn_nth_error {A} (l : list A) :
  forall n x, nth_error l n = Some x -> skipn n l = x :: skipn (S n) l.
Proof.
  induction l as [|y l IH]; intros [|n] x H; simpl in *; try discriminate.
  - inversion H. reflexivity.
  - apply IH. exact H.
Qed.

Lemma api_posts_get_token rt w :
  api_posts (trace (snd (get_token rt w))) = api_posts (trace w).
Proof.
  destruct (get_token_frame rt w) as (_ & _ & _ & _ & [E|E]); rewrite E.
  - reflexivity.
  - rewrite api_posts_app. unfold api_posts at 2. simpl. lia.
Qed.

(** The loop when passes [0 .. k-1] fail and pass [k] is answered with
    status 200. *)
Lemma retry_loop_200_at url bearer body retries k r w :
  0 <= k < retries ->
  all_retryable (Z.to_nat k) (api_endpoint w) ->
  nth_error (api_endpoint w) (Z.to_nat k) = Some (Responds r) ->
  status_code r = 200 ->
  for_each (py_range retries) (api_attempt url bearer body) w
  = (Done (Return (match resp_json r with Some v => v | None => JNull end)),
     let w2 := after_failures url bearer body (py_range k) w in
     set_api_endpoint (skipn (S (Z.to_nat k)) (api_endpoint w))
       (set_trace (trace w2 ++ [EvApiPost url bearer body]) w2)).
Proof.
  intros Hk Hfail Hnth Hs.
  rewrite (py_range_split retries k Hk), for_each_app.
  rewrite retry_loop_all_fail by (rewrite py_range_length; exact Hfail).
  simpl. unfold bind.
  assert (E : api_endpoint (after_failures url bearer body (py_range k) w)
              = Responds r :: skipn (S (Z.to_nat k)) (api_endpoint w)).
  { rewrite after_failures_api, py_range_length. apply skipn_nth_error. exact Hnth. }
  rewrite (api_attempt_200 url bearer body k _ r _ E Hs). reflexivity.
Qed.



(** Every script either fails [n] times in a row or is first answered
    with status 200 at some pass [k < n]. *)
Lemma script_cases n :
  forall script,
    all_retryable n script
    \/ exists k r, (k < n)%nat /\ all_retryable k script
                   /\ nth_error script k = Some (Responds r) /\ status_code r = 200.
Proof.
  induction n as [|n IH]; intro script.
  - left. unfold all_retryable. simpl. constructor.
  - destruct script as [|o script].
    + left. apply all_retryable_nil.
    + destruct o as [r|].
      * destruct (Z.eq_dec (status_code r) 200) as [E|NE].
        -- right. exists 0%nat, r. repeat split; auto; try lia.
           unfold all_retryable. simpl. constructor.
        -- destruct (IH script) as [H|(k & r' & Hk & Hf & Hn & Hs)].
           ++ left. apply all_retryable_S. split; auto.
           ++ right. exists (S k), r'. repeat split; auto; try lia.
              apply all_retryable_S. split; auto.
      * destruct (IH script) as [H|(k & r' & Hk & Hf & Hn & Hs)].
        -- left. apply all_retryable_S. split; simpl; auto.
        -- right. exists (S k), r'. repeat split; auto; try lia.
           apply all_retryable_S. split; simpl; auto.
Qed.

(** The shape of a run of the retry loop, whatever the endpoint
    answers: [k] failed passes and then a final request, or [retries]
    failed passes.  The token manager and its endpoint are not touched. *)
Lemma retry_loop_shape url bearer body retries w :
  let (res, w') := for_each (py_range retries) (api_attempt url bearer body) w in
  token_manager w' = token_manager w
  /\ token_endpoint w' = token_endpoint w
  /\ ((exists k r, 0 <= k < retries
                   /\ all_retryable (Z.to_nat k) (api_endpoint w)
                   /\ nth_error (api_endpoint w) (Z.to_nat k) = Some (Responds r)
                   /\ status_code r = 200
                   /\ res = Done (Return (match resp_json r with Some v => v | None => JNull end))
                   /\ trace w' = (trace w ++ backoff_trace url bearer body (py_range k) (uniform01 w)
                                          ++ [EvApiPost url bearer body])%list)
      \/ (all_retryable (Z.to_nat retries) (api_endpoint w)
          /\ res = Done Next
          /\ trace w' = (trace w ++ backoff_trace url bearer body (py_range retries)
                                      (uniform01 w))%list)).
Proof.
  destruct (script_cases (Z.to_nat retries) (api_endpoint w))
    as [Hall|(k & r & Hk & Hf & Hn & Hs)].
  - rewrite retry_loop_all_fail by (rewrite py_range_length; exact Hall).
    rewrite after_failures_token_manager, after_failures_trace.
    split; [reflexivity|]. split.
    + clear Hall. generalize (py_range retries) w. intro l.
      induction l as [|a l IH]; intro w0; simpl; [reflexivity|]. rewrite IH. reflexivity.
    + right. auto.
  - assert (Hk' : 0 <= Z.of_nat k < retries) by lia.
    rewrite <- (Nat2Z.id k) in Hf, Hn.
    rewrite (retry_loop_200_at url bearer body retries (Z.of_nat k) r w Hk' Hf Hn Hs).
    simpl. rewrite after_failures_token_manager, after_failures_trace.
    split; [reflexivity|]. split.
    + generalize (py_range (Z.of_nat k)) w. intro l.
      induction l as [|a l IH]; intro w0; simpl; [reflexivity|]. rewrite IH. reflexivity.
    + left. exists (Z.of_nat k), r. rewrite <- app_assoc. repeat split; auto; lia.
Qed.










(** The whole trace of a call that reaches the retry loop. *)
Lemma analyze_trace_shape rt w image_path prompt email url retries f tok w1 :
  find_file image_path (files w) = Some f ->
  get_token rt w = (Done tok, w1) ->
  py_truthy tok = true ->
  let (result, w') := analyze_image_veolia rt image_path prompt email url retries w in
  let body := api_payload email prompt (f_data f) in
  token_manager w' = token_manager w1
  /\ token_endpoint w' = token_endpoint w1
  /\ ((exists k r, 0 <= k < retries
                   /\ all_retryable (Z.to_nat k) (api_endpoint w)
                   /\ nth_error (api_endpoint w) (Z.to_nat k) = Some (Responds r)
                   /\ status_code r = 200
                   /\ result = Done (match resp_json r with Some v => v | None => JNull end)
                   /\ trace w' = (trace w1 ++ backoff_trace url tok body (py_range k) (uniform01 w)
                                           ++ [EvApiPost url tok body])%list)
      \/ (all_retryable (Z.to_nat retries) (api_endpoint w)
          /\ result = Done JNull
          /\ trace w' = (trace w1 ++ backoff_trace url tok body (py_range retries)
                                       (uniform01 w))%list)).
Proof.
  intros Hf Ht Htok.
  rewrite (analyze_enters_loop rt w image_path prompt email url retries f tok w1 Hf Ht Htok).
  pose proof (get_token_frame rt w) as Hfr. rewrite Ht in Hfr. simpl in Hfr.
  destruct Hfr as (_ & Hapi & Hu & _ & _).
  pose proof (retry_loop_shape url tok (api_payload email prompt (f_data f)) retries w1) as Hs.
  destruct (for_each _ _ w1) as [res w'].
  rewrite Hapi, Hu in Hs.
  destruct Hs as (Hm & He & [(k & r & Hk & Hfail & Hn & H200 & Hres & Htr)|(Hall & Hres & Htr)]);
    subst res; cbv zeta; (split; [exact Hm|]); (split; [exact He|]).
  - left. exists k, r. repeat split; auto; lia.
  - right. auto.
Qed.




Lemma backoff_trace_loop_events url bearer body attempts :
  forall us, Forall (loop_event url bearer body) (backoff_trace url bearer body attempts us).
Proof.
  induction attempts as [|a attempts IH]; intro us; simpl.
  - constructor.
  - constructor; [left; reflexivity|].
    constructor; [right; eexists; reflexivity|]. apply IH.
Qed.

(** C9: a call that reaches the retry loop asks the token manager once,
    before the first request: at most one token request is sent, and it
    precedes everything the loop does; every analysis request of the call
    carries the token obtained then; the loop sends no token request and
    leaves the manager as that one [get_token] left it, however long the
    backoff sleeps last. *)
Theorem analyze_reuses_one_token rt w image_path prompt email url retries f tok w1 :
  find_file image_path (files w) = Some f ->
  get_token rt w = (Done tok, w1) ->
  py_truthy tok = true ->
  let (result, w') := analyze_image_veolia rt image_path prompt email url retries w in
  exists before evs,
    trace w1 = (trace w ++ before)%list
    /\ (before = []
        \/ before = [EvTokenPost (tm_client_id (token_manager w))
                                 (tm_client_secret (token_manager w))])
    /\ trace w' = (trace w1 ++ evs)%list
    /\ Forall (loop_event url tok (api_payload email prompt (f_data f))) evs
    /\ token_manager w' = token_manager w1
    /\ token_endpoint w' = token_endpoint w1.
Proof.
  intros Hf Ht Htok.
  pose proof (analyze_trace_shape rt w image_path prompt email url retries f tok w1 Hf Ht Htok) as Hs.
  pose proof (get_token_frame rt w) as Hfr. rewrite Ht in Hfr. simpl in Hfr.
  destruct Hfr as (_ & _ & _ & _ & Hpre).
  destruct (analyze_image_veolia rt image_path prompt email url retries w) as [result w'].
  cbv zeta in Hs.
  assert (Hb : exists before,
             trace w1 = (trace w ++ before)%list
             /\ (before = []
                 \/ before = [EvTokenPost (tm_client_id (token_manager w))
                                          (tm_client_secret (token_manager w))])).
  { destruct Hpre as [E|E].
    - exists []. rewrite app_nil_r. auto.
    - eexists. split; [exact E|]. right. reflexivity. }
  destruct Hb as (before & Hb1 & Hb2).
  destruct Hs as (Hm & He & [(k & r & _ & _ & _ & _ & _ & Htr)|(_ & _ & Htr)]);
    exists before; eexists; (split; [exact Hb1|]); (split; [exact Hb2|]);
    (split; [exact Htr|]); (split; [|split; assumption]).
  - apply Forall_app. split; [apply backoff_trace_loop_events|].
    constructor; [left; reflexivity | constructor].
  - apply backoff_trace_loop_events.
Qed.

(** The token is granted for 61 s at time 0, so it stops being fresh
    after the first backoff sleep; the second and third requests still
    carry it and no second token request is sent. *)
Lemma analyze_reuses_one_token_witness :
  let w := failing_analysis_world 61 in
  let (result, w') := analyze_image_veolia sample_runtime sample_image "p" "e" "u" 3 w in
  (cache_fresh w' = false
   /\ List.length (filter is_token_post (trace w')) = 1%nat
   /\ api_posts (trace w') = 3%nat)
  /\ exists before evs,
       trace (snd (get_token sample_runtime w)) = (trace w ++ before)%list
       /\ (before = [] \/ before = [EvTokenPost "id" "secret"])
       /\ trace w' = (trace (snd (get_token sample_runtime w)) ++ evs)%list
       /\ Forall (loop_event "u" (JStr "abc") (api_payload "e" "p" "JPEG")) evs
       /\ token_manager w' = token_manager (snd (get_token sample_runtime w))
       /\ token_endpoint w' = token_endpoint (snd (get_token sample_runtime w)).
Proof.
  intro w.
  pose proof (analyze_reuses_one_token sample_runtime w sample_image "p" "e" "u" 3
                sample_file (JStr "abc") (snd (get_token sample_runtime w))
                eq_refl eq_refl eq_refl) as H.
  destruct (analyze_image_veolia sample_runtime sample_image "p" "e" "u" 3 w) as [result w'] eqn:E.
  split; [|exact H].
  vm_compute in E. inversion E. repeat split; reflexivity.
Defined.

(** ** The capture sources *)








Lemma after_local_failures_writes camera_index n :
  forall w, writes (trace (Nat.iter n (after_local_failure camera_index) w)) = writes (trace w)
            /\ files (Nat.iter n (after_local_failure camera_index) w) = files w.
Proof.
  induction n as [|n IH]; intro w.
  - split; reflexivity.
  - rewrite Nat.iter_succ_r. destruct (IH (after_local_failure camera_index w)) as [H1 H2].
    rewrite H1, H2. simpl. split; [|reflexivity].
    induction (trace w) as [|e tr IHtr]; simpl; [reflexivity|].
    destruct e; simpl; rewrite ?IHtr; reflexivity.
Qed.


Lemma snapshot_gets_app tr1 tr2 :
  snapshot_gets (tr1 ++ tr2) = (snapshot_gets tr1 + snapshot_gets tr2)%nat.
Proof. unfold snapshot_gets. rewrite filter_app, length_app. reflexivity. Qed.

Lemma writes_app tr1 tr2 : writes (tr1 ++ tr2) = (writes tr1 ++ writes tr2)%list.
Proof.
  induction tr1 as [|e tr1 IH]; simpl; [reflexivity|].
  destruct e; simpl; rewrite ?IH; reflexivity.
Qed.

Lemma find_file_head p t data a b fs :
  find_file p (File p t data a b :: fs) = Some (File p t data a b).
Proof. unfold find_file. simpl. rewrite path_eqb_refl. reflexivity. Qed.


Lemma reolink_attempt_failed ip rs user password filepath attempt w :
  no_snapshots 1 (snapshot_endpoint w) ->
  reolink_attempt ip rs user password filepath attempt w
  = (Done Next, after_reolink_failure ip rs user password filepath w).
Proof.
  unfold no_snapshots, reolink_attempt, get_snapshot, write_file, after_reolink_failure.
  intro H. step_monad.
  destruct (snapshot_endpoint w) as [|[status body ok|] rest] eqn:E; simpl.
  - rewrite <- app_assoc. unfold set_now, set_trace, set_snapshot_endpoint. simpl.
    rewrite E. reflexivity.
  - inversion H as [|? ? Hr _]. simpl in Hr.
    destruct (status =? 200) eqn:S200; simpl.
    + destruct Hr as [Hr| ->]; [apply Z.eqb_eq in S200; contradiction|]. simpl.
      rewrite <- !app_assoc. reflexivity.
    + rewrite <- app_assoc. reflexivity.
  - rewrite <- app_assoc. reflexivity.
Qed.

Lemma reolink_attempt_ok ip rs user password filepath attempt w body rest :
  snapshot_endpoint w = Snapshot 200 body true :: rest ->
  reolink_attempt ip rs user password filepath attempt w
  = (Done (Return (Some filepath)),
     set_files (File filepath (now w) body true true
                  :: without_file filepath
                       (File filepath (now w) "" true true :: without_file filepath (files w)))
       (set_trace (trace w ++ [EvSnapshotGet ip rs user password; EvWrite filepath;
                               EvWrite filepath])
          (set_snapshot_endpoint rest w))).
Proof.
  unfold reolink_attempt, get_snapshot, write_file. intro E. step_monad.
  rewrite E. simpl. rewrite <- !app_assoc. reflexivity.
Qed.

Lemma no_snapshots_head n script :
  no_snapshots (S n) script -> no_snapshots 1 script /\ no_snapshots n (tl script).
Proof.
  unfold no_snapshots. destruct script as [|o script]; simpl.
  - intros _. rewrite firstn_nil. split; constructor.
  - intro H. inversion H as [|? ? Ho Hrest]. split; [|exact Hrest].
    constructor; [exact Ho|]. destruct script; constructor.
Qed.

Lemma reolink_loop_all_fail ip rs user password filepath attempts :
  forall w,
    no_snapshots (List.length attempts) (snapshot_endpoint w) ->
    for_each attempts (reolink_attempt ip rs user password filepath) w
    = (Done Next,
       Nat.iter (List.length attempts) (after_reolink_failure ip rs user password filepath) w).
Proof.
  induction attempts as [|a attempts IH]; intros w H.
  - reflexivity.
  - apply no_snapshots_head in H. destruct H as [H1 Hn].
    cbn [for_each]. unfold bind. rewrite reolink_attempt_failed by exact H1.
    rewrite IH.
    + cbn [List.length]. rewrite Nat.iter_succ_r. reflexivity.
    + unfold after_reolink_failure.
      destruct (snapshot_endpoint w) as [|[status body ok|] rest]; simpl;
        [exact Hn | destruct (status =? 200); exact Hn | exact Hn].
Qed.

(** What [n] failed passes of the network loop leave behind. *)
Lemma after_reolink_failures ip rs user password filepath n :
  forall w,
    let w' := Nat.iter n (after_reolink_failure ip rs user password filepath) w in
    snapshot_endpoint w' = skipn n (snapshot_endpoint w)
    /\ snapshot_gets (trace w') = (snapshot_gets (trace w) + n)%nat
    /\ now w' = Nat.iter n (fun t => (t + 1)%Q) (now w)
    /\ exists evs,
         trace w' = (trace w ++ evs)%list /\ Forall (fun p => p = filepath) (writes evs).
Proof.
  induction n as [|n IH]; intro w.
  - simpl. repeat split; try lia. exists []. rewrite app_nil_r. split; constructor.
  - cbv zeta. rewrite !Nat.iter_succ_r.
    destruct (IH (after_reolink_failure ip rs user password filepath w))
      as (H1 & H2 & H3 & evs & H4 & H5).
    rewrite H1, H2, H3, H4. clear IH H1 H2 H3 H4.
    unfold after_reolink_failure.
    destruct (snapshot_endpoint w) as [|[status body ok|] rest]; simpl;
      [|destruct (status =? 200); simpl|];
      rewrite ?skipn_nil, ?snapshot_gets_app; unfold snapshot_gets at 2; simpl;
      (split; [reflexivity|]); (split; [lia|]); (split; [reflexivity|]);
      eexists; (split; [rewrite <- app_assoc; reflexivity|]);
      simpl; repeat constructor; exact H5.
Qed.


(** The world in which the network loop starts. *)
Lemma capture_reolink_enters_loop rt config filename_prefix retries w ip user password image_dir :
  reolink_configured config ip user password image_dir ->
  makedirs_ok w = true ->
  capture_image_reolink rt config filename_prefix retries w
  = match for_each (py_range retries)
            (reolink_attempt ip (hd "aaaaaa" (random_str w)) user password
               (path_join image_dir (image_filename rt filename_prefix (now w))))
            (set_random_str (tl (random_str w))
               (set_trace (trace w ++ [EvMakedirs image_dir]) w)) with
    | (Done (Return r), w') => (Done r, w')
    | (Done Next, w') => (Done None, w')
    | (Raised e, w') => (Raised e, w')
    | (SysExit c, w') => (SysExit c, w')
    end.
Proof.
  intros (fields & cam & -> & Hcam & Hip & Huser & Hpw & Tip & Tuser & Tpw & Hdir) Hm.
  unfold capture_image_reolink, dict_get, os_makedirs, random_token, as_str. step_monad.
  rewrite Hcam. simpl. rewrite Hip, Huser, Hpw, Tip, Tuser, Tpw. simpl.
  assert (Ed : match dict_lookup "image_dir" fields with
               | Some x => x
               | None => JStr "captured_images"
               end = JStr image_dir).
  { destruct (dict_lookup "image_dir" fields); congruence. }
  rewrite Ed. simpl. rewrite Hm. simpl.
  destruct (random_str w) as [|s rest] eqn:R; simpl.
  - replace (set_random_str [] (set_trace (trace w ++ [EvMakedirs image_dir]) w))
      with (set_trace (trace w ++ [EvMakedirs image_dir]) w)
      by (unfold set_random_str, set_trace; simpl; rewrite R; reflexivity).
    destruct (for_each _ _ _) as [[[|r]|e|c] w']; reflexivity.
  - destruct (for_each _ _ _) as [[[|r]|e|c] w']; reflexivity.
Qed.

(** The network loop when requests [0 .. k-1] fail and request [k]
    delivers the image. *)
Lemma reolink_loop_ok_at ip rs user password filepath retries k body w :
  0 <= k < retries ->
  no_snapshots (Z.to_nat k) (snapshot_endpoint w) ->
  nth_error (snapshot_endpoint w) (Z.to_nat k) = Some (Snapshot 200 body true) ->
  let w2 := Nat.iter (Z.to_nat k) (after_reolink_failure ip rs user password filepath) w in
  for_each (py_range retries) (reolink_attempt ip rs user password filepath) w
  = (Done (Return (Some filepath)),
     set_files (File filepath (now w2) body true true
                  :: without_file filepath
                       (File filepath (now w2) "" true true :: without_file filepath (files w2)))
       (set_trace (trace w2 ++ [EvSnapshotGet ip rs user password; EvWrite filepath;
                                EvWrite filepath])
          (set_snapshot_endpoint (skipn (S (Z.to_nat k)) (snapshot_endpoint w)) w2))).
Proof.
  intros Hk Hnone Hnth w2.
  rewrite (py_range_split retries k Hk), for_each_app.
  rewrite reolink_loop_all_fail by (rewrite py_range_length; exact Hnone).
  rewrite py_range_length. fold w2.
  assert (E : snapshot_endpoint w2
              = Snapshot 200 body true :: skipn (S (Z.to_nat k)) (snapshot_endpoint w)).
  { unfold w2.
    destruct (after_reolink_failures ip rs user password filepath (Z.to_nat k) w) as (H & _).
    rewrite H. apply skipn_nth_error. exact Hnth. }
  cbn [for_each]. unfold bind.
  rewrite (reolink_attempt_ok ip rs user password filepath k w2 body _ E).
  reflexivity.
Qed.



Lemma capture_reolink_all_fail rt config filename_prefix retries w ip user password image_dir :
  reolink_configured config ip user password image_dir ->
  makedirs_ok w = true ->
  no_snapshots (Z.to_nat retries) (snapshot_endpoint w) ->
  capture_image_reolink rt config filename_prefix retries w
  = (Done None,
     Nat.iter (Z.to_nat retries)
       (after_reolink_failure ip (hd "aaaaaa" (random_str w)) user password
          (path_join image_dir (image_filename rt filename_prefix (now w))))
       (set_random_str (tl (random_str w))
          (set_trace (trace w ++ [EvMakedirs image_dir]) w))).
Proof.
  intros Hc Hm Hnone.
  rewrite (capture_reolink_enters_loop rt config filename_prefix retries w _ _ _ _ Hc Hm).
  rewrite reolink_loop_all_fail by (rewrite py_range_length; exact Hnone).
  rewrite py_range_length. reflexivity.
Qed.

Lemma capture_reolink_ok_at rt config filename_prefix retries w ip user password image_dir k body :
  reolink_configured config ip user password image_dir ->
  makedirs_ok w = true ->
  0 <= k < retries ->
  no_snapshots (Z.to_nat k) (snapshot_endpoint w) ->
  nth_error (snapshot_endpoint w) (Z.to_nat k) = Some (Snapshot 200 body true) ->
  let filepath := path_join image_dir (image_filename rt filename_prefix (now w)) in
  let rs := hd "aaaaaa" (random_str w) in
  let w2 := Nat.iter (Z.to_nat k) (after_reolink_failure ip rs user password filepath)
              (set_random_str (tl (random_str w))
                 (set_trace (trace w ++ [EvMakedirs image_dir]) w)) in
  capture_image_reolink rt config filename_prefix retries w
  = (Done (Some filepath),
     set_files (File filepath (now w2) body true true
                  :: without_file filepath
                       (File filepath (now w2) "" true true :: without_file filepath (files w2)))
       (set_trace (trace w2 ++ [EvSnapshotGet ip rs user password; EvWrite filepath;
                                EvWrite filepath])
          (set_snapshot_endpoint (skipn (S (Z.to_nat k)) (snapshot_endpoint w)) w2))).
Proof.
  intros Hc Hm Hk Hnone Hnth filepath rs w2.
  rewrite (capture_reolink_enters_loop rt config filename_prefix retries w _ _ _ _ Hc Hm).
  fold filepath rs.
  rewrite (reolink_loop_ok_at ip rs user password filepath retries k body
             (set_random_str (tl (random_str w))
                (set_trace (trace w ++ [EvMakedirs image_dir]) w)) Hk Hnone Hnth).
  reflexivity.
Qed.


Lemma sample_config_configured :
  reolink_configured sample_config (JStr "10.0.0.2") (JStr "admin") (JStr "pw")
    "captured_images".
Proof.
  unfold reolink_configured, sample_config. do 2 eexists. repeat split; reflexivity.
Defined.


Lemma iter_seconds n t : (Nat.iter n (fun t => t + 1) t == t + inject_Z (Z.of_nat n))%Q.
Proof.
  induction n as [|n IH].
  - change (t == t + 0)%Q. lra.
  - rewrite Nat.iter_succ, IH, Nat2Z.inj_succ. unfold Z.succ. rewrite inject_Z_plus.
    change (inject_Z 1) with 1%Q. lra.
Qed.

(** Every snapshot script either fails [n] times in a row or first
    delivers at some request [k < n]. *)
Lemma snapshot_cases n :
  forall script,
    no_snapshots n script
    \/ exists k body, (k < n)%nat /\ no_snapshots k script
                      /\ nth_error script k = Some (Snapshot 200 body true).
Proof.
  induction n as [|n IH]; intro script.
  - left. constructor.
  - destruct script as [|o script].
    + left. unfold no_snapshots. rewrite firstn_nil. constructor.
    + assert (Hdec : snapshot_fails o \/ exists body, o = Snapshot 200 body true).
      { destruct o as [status body ok|]; simpl; [|auto].
        destruct (Z.eq_dec status 200) as [->|NE]; [|auto].
        destruct ok; [right; eexists; reflexivity | auto]. }
      destruct Hdec as [Hfail|(body & ->)].
      * destruct (IH script) as [H|(k & body & Hk & Hf & Hn)].
        -- left. unfold no_snapshots in *. simpl. constructor; assumption.
        -- right. exists (S k), body. repeat split; [lia| |exact Hn].
           unfold no_snapshots in *. simpl. constructor; assumption.
      * right. exists 0%nat, body. repeat split; [lia|constructor].
Qed.

(** C10: a network capture computes its destination once, from the
    clock reading at the start of the call: every write of the call, in
    whichever pass, goes to that path, and a successful call returns it.
    When the request that delivers is number [k], the clock has moved on
    by the [k] pauses of the failed passes, yet the name carries the
    reading taken at the start. *)
Theorem reolink_path_fixed_at_start rt w config filename_prefix retries ip user password image_dir :
  reolink_configured config ip user password image_dir ->
  makedirs_ok w = true ->
  let filepath := path_join image_dir (image_filename rt filename_prefix (now w)) in
  let (result, w') := capture_image_reolink rt config filename_prefix retries w in
  (result = Done None \/ result = Done (Some filepath))
  /\ (exists evs,
         trace w' = (trace w ++ evs)%list /\ Forall (fun p => p = filepath) (writes evs))
  /\ (forall k body,
         0 <= k < retries ->
         no_snapshots (Z.to_nat k) (snapshot_endpoint w) ->
         nth_error (snapshot_endpoint w) (Z.to_nat k) = Some (Snapshot 200 body true) ->
         result = Done (Some filepath)
         /\ (now w' == now w + inject_Z k)%Q
         /\ exists f, find_file filepath (files w') = Some f
                      /\ f_data f = body /\ (f_mtime f == now w + inject_Z k)%Q).
Proof.
  intros Hc Hm filepath.
  destruct (capture_image_reolink rt config filename_prefix retries w) as [result w'] eqn:E.
  assert (Hok : forall k body,
             0 <= k < retries ->
             no_snapshots (Z.to_nat k) (snapshot_endpoint w) ->
             nth_error (snapshot_endpoint w) (Z.to_nat k) = Some (Snapshot 200 body true) ->
             result = Done (Some filepath)
             /\ (exists evs,
                    trace w' = (trace w ++ evs)%list
                    /\ Forall (fun p => p = filepath) (writes evs))
             /\ (now w' == now w + inject_Z k)%Q
             /\ exists f, find_file filepath (files w') = Some f
                          /\ f_data f = body /\ (f_mtime f == now w + inject_Z k)%Q).
  { intros k body Hk Hnone Hnth.
    rewrite (capture_reolink_ok_at rt config filename_prefix retries w _ _ _ _ k body
               Hc Hm Hk Hnone Hnth) in E.
    inversion E; subst; clear E. fold filepath. split; [reflexivity|]. simpl.
    match goal with
    | |- context [Nat.iter ?n (after_reolink_failure ?a ?b ?c ?d ?e) ?w0] =>
        destruct (after_reolink_failures a b c d e n w0) as (_ & _ & Hnow & evs & Htr & Hw)
    end.
    rewrite Htr, Hnow. simpl.
    assert (Ht : (Nat.iter (Z.to_nat k) (fun t => t + 1) (now w) == now w + inject_Z k)%Q).
    { rewrite iter_seconds, Z2Nat.id by lia. reflexivity. }
    split; [|split; [exact Ht|]].
    - eexists. split; [rewrite <- !app_assoc; reflexivity|].
      simpl. rewrite writes_app. apply Forall_app. split; [exact Hw|].
      simpl. repeat constructor.
    - eexists. split; [apply find_file_head|]. split; [reflexivity|exact Ht]. }
  destruct (snapshot_cases (Z.to_nat retries) (snapshot_endpoint w))
    as [Hall|(k & body & Hk & Hf & Hn)].
  - split; [|split].
    + left.
      rewrite (capture_reolink_all_fail rt config filename_prefix retries w _ _ _ _ Hc Hm Hall) in E.
      inversion E. reflexivity.
    + rewrite (capture_reolink_all_fail rt config filename_prefix retries w _ _ _ _ Hc Hm Hall) in E.
      inversion E; subst; clear E. fold filepath.
      match goal with
      | |- context [Nat.iter ?n (after_reolink_failure ?a ?b ?c ?d ?e) ?w0] =>
          destruct (after_reolink_failures a b c d e n w0) as (_ & _ & _ & evs & Htr & Hw)
      end.
      rewrite Htr. simpl. eexists. split; [rewrite <- app_assoc; reflexivity|].
      simpl. exact Hw.
    + intros k body Hk Hnone Hnth. destruct (Hok k body Hk Hnone Hnth) as (H1 & _ & H3 & H4).
      auto.
  - rewrite <- (Nat2Z.id k) in Hf, Hn.
    assert (Hk' : 0 <= Z.of_nat k < retries) by lia.
    destruct (Hok (Z.of_nat k) body Hk' Hf Hn) as (H1 & H2 & _).
    split; [right; exact H1|]. split; [exact H2|].
    intros k2 body2 Hk2 Hnone2 Hnth2. destruct (Hok k2 body2 Hk2 Hnone2 Hnth2) as (? & _ & ? & ?).
    auto.
Qed.

Lemma reolink_path_fixed_at_start_witness :
  let (result, w') :=
    capture_image_reolink sample_runtime sample_config "image" 3 capture_world in
  result = Done (Some (Path "captured_images" "image_100.jpg"))
  /\ (now w' == 100 + inject_Z 2)%Q
  /\ exists evs,
       trace w' = (trace capture_world ++ evs)%list
       /\ Forall (fun p => p = Path "captured_images" "image_100.jpg") (writes evs).
Proof.
  pose proof (reolink_path_fixed_at_start sample_runtime capture_world sample_config "image" 3
                _ _ _ _ sample_config_configured eq_refl) as H.
  cbv zeta in H.
  destruct (capture_image_reolink sample_runtime sample_config "image" 3 capture_world)
    as [result w'].
  destruct H as (_ & Hw & H).
  destruct (H 2 "jpeg") as (H1 & H2 & _).
  - lia.
  - unfold no_snapshots. simpl.
    constructor; [left; discriminate | constructor; [exact I | constructor]].
  - reflexivity.
  - split; [exact H1|]. split; [exact H2 | exact Hw].
Defined.

(** ** The retention sweep *)

Lemma cleanup_one_sweeps now_ max_age_seconds p w :
  cleanup_one now_ max_age_seconds p w = (Done tt, sweep_one now_ max_age_seconds w p).
Proof.
  unfold cleanup_one, sweep_one, old_and_deletable, getmtime, os_remove. step_monad.
  destruct (find_file p (files w)) as [f|] eqn:E; simpl; [|reflexivity].
  destruct (f_stat_ok f); simpl; [|reflexivity].
  destruct (Qltb max_age_seconds (now_ - f_mtime f)); simpl; [|reflexivity].
  rewrite E. destruct (f_removable f); reflexivity.
Qed.

Lemma cleanup_loop_sweeps now_ max_age_seconds ps :
  forall w,
    for_ ps (cleanup_one now_ max_age_seconds) w
    = (Done tt, fold_left (sweep_one now_ max_age_seconds) ps w).
Proof.
  unfold for_. induction ps as [|p ps IH]; intro w.
  - reflexivity.
  - specialize (IH (sweep_one now_ max_age_seconds w p)).
    cbn [for_each fold_left]. unfold bind in *. rewrite cleanup_one_sweeps.
    unfold ret at 1. exact IH.
Qed.

Lemma find_file_unique fs :
  NoDup (map f_path fs) ->
  forall p f0 f, find_file p fs = Some f0 -> In f fs -> f_path f = p -> f = f0.
Proof.
  unfold find_file. induction fs as [|g fs IH]; intros Hnd p f0 f Hfind Hin Hp.
  - contradiction.
  - simpl in Hnd. inversion Hnd as [|? ? Hnotin Hnd']; subst.
    simpl in Hfind. destruct (path_eqb (f_path g) (f_path f)) eqn:E.
    + inversion Hfind; subst f0. destruct Hin as [->|Hin]; [reflexivity|].
      exfalso. apply Hnotin. apply path_eqb_eq in E. rewrite E. apply in_map. exact Hin.
    + destruct Hin as [->|Hin].
      * rewrite path_eqb_refl in E. discriminate E.
      * apply (IH Hnd' (f_path f) f0 f Hfind Hin eq_refl).
Qed.

Lemma find_file_none p fs f :
  find_file p fs = None -> In f fs -> path_eqb (f_path f) p = false.
Proof.
  unfold find_file. intros Hnone Hin.
  apply (find_none _ _ Hnone f Hin).
Qed.

Lemma NoDup_map_filter {A B} (g : A -> B) (keep : A -> bool) (l : list A) :
  NoDup (map g l) -> NoDup (map g (filter keep l)).
Proof.
  induction l as [|a l IH]; intro H; simpl.
  - constructor.
  - simpl in H. inversion H as [|? ? Hnotin Hnd]; subst.
    destruct (keep a); simpl; [|apply IH; exact Hnd].
    constructor; [|apply IH; exact Hnd].
    intro Hin. apply Hnotin. apply in_map_iff in Hin. destruct Hin as (x & Hx & Hin).
    apply filter_In in Hin. apply in_map_iff. exists x. tauto.
Qed.

Lemma filter_twice {A} (a b : A -> bool) (l : list A) :
  filter a (filter b l) = filter (fun x => b x && a x) l.
Proof.
  induction l as [|x l IH]; simpl; [reflexivity|].
  destruct (b x); simpl; [|exact IH].
  destruct (a x); rewrite IH; reflexivity.
Qed.

(** The files that remain after the loop has handled the paths [ps]. *)
Lemma sweep_files now_ max_age_seconds ps :
  forall w,
    NoDup (map f_path (files w)) ->
    files (fold_left (sweep_one now_ max_age_seconds) ps w)
    = filter (fun f => negb (existsb (path_eqb (f_path f)) ps
                             && old_and_deletable now_ max_age_seconds f))
             (files w).
Proof.
  induction ps as [|p ps IH]; intros w Hnd.
  - simpl. symmetry. apply forallb_filter_id. apply forallb_forall. reflexivity.
  - cbn [fold_left]. rewrite IH.
    + unfold sweep_one.
      destruct (find_file p (files w)) as [f0|] eqn:E.
      * destruct (old_and_deletable now_ max_age_seconds f0) eqn:Eod.
        -- simpl. unfold without_file. rewrite filter_twice. apply filter_ext_in.
           intros f Hin. simpl.
           destruct (path_eqb (f_path f) p) eqn:Ep; simpl.
           ++ apply path_eqb_eq in Ep.
              rewrite (find_file_unique _ Hnd p f0 f E Hin Ep), Eod. reflexivity.
           ++ reflexivity.
        -- apply filter_ext_in. intros f Hin. simpl.
           destruct (path_eqb (f_path f) p) eqn:Ep; simpl; [|reflexivity].
           apply path_eqb_eq in Ep.
           rewrite (find_file_unique _ Hnd p f0 f E Hin Ep), Eod, andb_false_r. reflexivity.
      * apply filter_ext_in. intros f Hin. simpl.
        rewrite (find_file_none p _ f E Hin). reflexivity.
    + unfold sweep_one.
      destruct (find_file p (files w)) as [f0|]; [|exact Hnd].
      destruct (old_and_deletable now_ max_age_seconds f0); [|exact Hnd].
      simpl. apply NoDup_map_filter. exact Hnd.
Qed.

Lemma glob_lists_considered dir fs f :
  In f fs ->
  existsb (path_eqb (f_path f)) (map f_path (filter (considered dir) fs)) = considered dir f.
Proof.
  intro Hin. destruct (considered dir f) eqn:C.
  - apply existsb_exists. exists (f_path f). split; [|apply path_eqb_refl].
    apply in_map. apply filter_In. auto.
  - destruct (existsb _ _) eqn:E; [|reflexivity].
    apply existsb_exists in E. destruct E as (p & Hp & Heq).
    apply in_map_iff in Hp. destruct Hp as (g & <- & Hg).
    apply filter_In in Hg. destruct Hg as [_ Cg].
    apply path_eqb_eq in Heq. unfold considered in *. rewrite Heq in C. congruence.
Qed.

Lemma without_file_length p fs f0 :
  NoDup (map f_path fs) ->
  find_file p fs = Some f0 ->
  S (List.length (without_file p fs)) = List.length fs.
Proof.
  unfold find_file, without_file. induction fs as [|g fs IH]; intros Hnd Hfind.
  - discriminate Hfind.
  - simpl in *. inversion Hnd as [|? ? Hnotin Hnd']; subst.
    destruct (path_eqb (f_path g) p) eqn:E; simpl.
    + f_equal. f_equal. apply forallb_filter_id. apply forallb_forall.
      intros f Hin. apply negb_true_iff.
      destruct (path_eqb (f_path f) p) eqn:E'; [|reflexivity].
      exfalso. apply Hnotin. apply path_eqb_eq in E, E'. rewrite E, <- E'.
      apply in_map. exact Hin.
    + f_equal. apply IH; assumption.
Qed.

Lemma removals_app tr1 tr2 : removals (tr1 ++ tr2) = (removals tr1 + removals tr2)%nat.
Proof. unfold removals. rewrite filter_app, length_app. reflexivity. Qed.

(** Each removal in the trace is one file less in the directory. *)
Lemma sweep_counts now_ max_age_seconds ps :
  forall w,
    NoDup (map f_path (files w)) ->
    let w' := fold_left (sweep_one now_ max_age_seconds) ps w in
    (removals (trace w') + List.length (files w')
     = removals (trace w) + List.length (files w))%nat
    /\ now w' = now w.
Proof.
  induction ps as [|p ps IH]; intros w Hnd.
  - split; reflexivity.
  - cbn [fold_left]. cbv zeta.
    assert (Hstep : NoDup (map f_path (files (sweep_one now_ max_age_seconds w p)))
                    /\ (removals (trace (sweep_one now_ max_age_seconds w p))
                        + List.length (files (sweep_one now_ max_age_seconds w p))
                        = removals (trace w) + List.length (files w))%nat
                    /\ now (sweep_one now_ max_age_seconds w p) = now w).
    { unfold sweep_one.
      destruct (find_file p (files w)) as [f0|] eqn:E; [|auto].
      destruct (old_and_deletable now_ max_age_seconds f0); [|auto].
      simpl. split; [apply NoDup_map_filter; exact Hnd|]. split; [|reflexivity].
      rewrite removals_app. unfold removals at 2. simpl.
      pose proof (without_file_length p (files w) f0 Hnd E). lia. }
    destruct Hstep as (Hnd1 & Hc1 & Hn1).
    destruct (IH _ Hnd1) as [Hc Hn]. cbv zeta in Hc, Hn. split; [lia | congruence].
Qed.




(** ** The orchestration loops *)



Lemma never_exits_ret {A} (a : A) : never_exits (ret a).
Proof. unfold never_exits, ret. intros w c w' H. discriminate H. Qed.

Lemma never_exits_raise {A} (e : exn) : never_exits (raise (A := A) e).
Proof. unfold never_exits, raise. intros w c w' H. discriminate H. Qed.


(** A primitive that only reads or updates the world. *)
Ltac primitive_never_exits :=
  let w := fresh "w" in
  let H := fresh "H" in
  unfold never_exits, emit, time_time, time_sleep, bind, ret, raise;
  intros w ? ? H; simpl in H;
  repeat match type of H with
         | context [match ?x with _ => _ end] => destruct x
         | context [if ?x then _ else _] => destruct x
         end;
  discriminate H.

Lemma never_exits_emit e : never_exits (emit e).
Proof. primitive_never_exits. Qed.

Lemma never_exits_time_time : never_exits time_time.
Proof. primitive_never_exits. Qed.

Lemma never_exits_time_sleep d : never_exits (time_sleep d).
Proof. primitive_never_exits. Qed.

Lemma never_exits_os_makedirs dir : never_exits (os_makedirs dir).
Proof. unfold os_makedirs. primitive_never_exits. Qed.

Lemma never_exits_cam_read i : never_exits (cam_read i).
Proof. unfold cam_read. primitive_never_exits. Qed.

Lemma never_exits_write_file p d : never_exits (write_file p d).
Proof. unfold write_file. primitive_never_exits. Qed.

Lemma never_exits_get_snapshot a b c d : never_exits (get_snapshot a b c d).
Proof. unfold get_snapshot. primitive_never_exits. Qed.

Lemma never_exits_random_token : never_exits random_token.
Proof. unfold random_token. primitive_never_exits. Qed.

Lemma never_exits_dict_get v k d : never_exits (dict_get v k d).
Proof. unfold dict_get. destruct v; first [apply never_exits_ret | apply never_exits_raise]. Qed.

Lemma never_exits_as_str v : never_exits (as_str v).
Proof. unfold as_str. destruct v; first [apply never_exits_ret | apply never_exits_raise]. Qed.

Create HintDb never_exits.
#[local] Hint Resolve never_exits_ret never_exits_raise never_exits_emit
  never_exits_time_time never_exits_time_sleep never_exits_os_makedirs
  never_exits_cam_read never_exits_write_file never_exits_get_snapshot
  never_exits_random_token never_exits_dict_get never_exits_as_str : never_exits.





(** A dataset iteration past the duration check, in terms of its [try]
    block. *)
Lemma dataset_iteration_runs rt max_failures L cf w :
  duration_reached L w = false ->
  dataset_iteration rt max_failures L cf w
  = match dataset_try_body rt max_failures L cf w with
    | (Done (Continued, cf'), w1) => (Done (LoopAgain, cf'), w1)
    | (Done (FellThrough, cf'), w1) =>
        let remaining := (dl_capture_interval L - (now w1 - now w))%Q in
        (Done (LoopAgain, cf'),
         if Qltb 0 remaining
         then set_now (now w1 + remaining) (set_trace (trace w1 ++ [EvSleep remaining]) w1)
         else w1)
    | (Raised e, w1) => (Done (LoopAgain, cf), paused w1)
    | (SysExit c, w1) => (SysExit c, w1)
    end.
Proof.
  unfold duration_reached, dataset_iteration, paused. intro H. step_monad.
  destruct (dl_max_duration_seconds L) as [limit|]; simpl; rewrite ?H; simpl;
    (destruct (dataset_try_body rt max_failures L cf w) as [[[[|] cf']|e|c] w1];
     [reflexivity | | reflexivity | reflexivity];
     simpl; destruct (Qltb 0 (dl_capture_interval L - (now w1 - now w))); reflexivity).
Qed.




















(** * Further properties of the modelled code *)

(** ** The token manager, continued *)

(** [get_token] completes with a value on every path. *)
Lemma get_token_done rt w :
  exists v w', get_token rt w = (Done v, w')
               /\ (v = JNull \/ v = tm_token (token_manager w')).
Proof.
  unfold get_token. step_monad.
  destruct (py_truthy (tm_token (token_manager w))
            && Qltb (now w) (tm_expiry (token_manager w) - 60)); simpl.
  - do 2 eexists. split; [reflexivity|]. right. reflexivity.
  - unfold post_token. step_monad.
    destruct (token_endpoint w) as [|[r|] rest]; simpl;
      try (do 2 eexists; split; [reflexivity|]; left; reflexivity).
    destruct (status_code r =? 200); simpl;
      try (do 2 eexists; split; [reflexivity|]; left; reflexivity).
    unfold response_json. destruct (resp_json r) as [v|]; simpl;
      try (do 2 eexists; split; [reflexivity|]; left; reflexivity).
    unfold subscript. destruct v; simpl;
      try (do 2 eexists; split; [reflexivity|]; left; reflexivity).
    destruct (dict_lookup "access_token" fields); simpl;
      try (do 2 eexists; split; [reflexivity|]; left; reflexivity).
    unfold dict_get; simpl.
    destruct (dict_lookup "expires_in" fields) as [e|]; simpl.
    + unfold py_int. destruct e; simpl;
        try (do 2 eexists; split; [reflexivity|]; left; reflexivity);
        try (do 2 eexists; split; [reflexivity|]; right; reflexivity).
      destruct (int_of_str rt s); simpl; do 2 eexists; (split; [reflexivity|]);
        [right | left]; reflexivity.
    + do 2 eexists. split; [reflexivity|]. right. reflexivity.
Qed.

(** X1: whatever the cache holds and whatever the token endpoint does,
    [get_token] neither raises nor exits: it returns [None] or the token
    the manager holds after the call. *)
Theorem get_token_always_returns rt w :
  exists v w',
    get_token rt w = (Done v, w')
    /\ (v = JNull \/ v = tm_token (token_manager w')).
Proof. apply get_token_done. Qed.

(** X2: a 200 answer that carries an [access_token] but an
    [expires_in] that [int()] rejects (null, a list, text that is no
    number) leaves the manager half updated: the new token is stored,
    the expiry is the old one, and the call returns [None]. *)
Theorem get_token_bad_lifetime_half_updates rt w r rest fields tok e :
  cache_fresh w = false ->
  token_endpoint w = Responds r :: rest ->
  status_code r = 200 ->
  resp_json r = Some (JObj fields) ->
  dict_lookup "access_token" fields = Some tok ->
  dict_lookup "expires_in" fields = Some e ->
  int_fails rt e ->
  get_token rt w
  = (Done JNull, set_token_manager (with_token tok (token_manager w)) (after_token_post w)).
Proof.
  unfold cache_fresh, get_token, with_token, after_token_post.
  intros Hmiss E S J Ht He Hint. step_monad. rewrite Hmiss.
  unfold post_token. step_monad. rewrite E. simpl. rewrite S. simpl.
  unfold response_json. rewrite J. simpl. rewrite Ht. simpl. rewrite He. simpl.
  unfold py_int. destruct e; simpl in *; try contradiction; try reflexivity.
  rewrite Hint. reflexivity.
Qed.

Lemma get_token_bad_lifetime_half_updates_witness :
  let r := Response 200 ""
             (Some (JObj [("access_token", JStr "new"); ("expires_in", JNull)])) in
  let w := set_token_endpoint [Responds r]
             (set_token_manager (TokenManager "id" "secret" (JStr "old") 50)
                (set_now 1000 empty_world)) in
  get_token sample_runtime w
  = (Done JNull,
     set_token_manager (TokenManager "id" "secret" (JStr "new") 50) (after_token_post w)).
Proof.
  intros r w.
  apply (get_token_bad_lifetime_half_updates sample_runtime w r []
           [("access_token", JStr "new"); ("expires_in", JNull)] (JStr "new") JNull);
    first [reflexivity | exact I].
Defined.

(** X3: a 200 answer without [expires_in] is taken to last 3600 s: the
    token is stored with expiry [now + 3600] and returned. *)
Theorem get_token_default_lifetime rt w r rest fields tok :
  cache_fresh w = false ->
  token_endpoint w = Responds r :: rest ->
  status_code r = 200 ->
  resp_json r = Some (JObj fields) ->
  dict_lookup "access_token" fields = Some tok ->
  dict_lookup "expires_in" fields = None ->
  get_token rt w
  = (Done tok,
     set_token_manager
       (TokenManager (tm_client_id (token_manager w)) (tm_client_secret (token_manager w))
                     tok (now w + inject_Z 3600))
       (after_token_post w)).
Proof.
  unfold cache_fresh, get_token, after_token_post.
  intros Hmiss E S J Ht He. step_monad. rewrite Hmiss.
  unfold post_token. step_monad. rewrite E. simpl. rewrite S. simpl.
  unfold response_json. rewrite J. simpl. rewrite Ht. simpl. rewrite He. simpl.
  reflexivity.
Qed.

Lemma get_token_default_lifetime_witness :
  let r := Response 200 "" (Some (JObj [("access_token", JStr "abc")])) in
  let w := set_token_endpoint [Responds r] (set_now 1000 empty_world) in
  get_token sample_runtime w
  = (Done (JStr "abc"),
     set_token_manager (TokenManager "id" "secret" (JStr "abc") (1000 + inject_Z 3600))
       (after_token_post w)).
Proof.
  intros r w.
  apply (get_token_default_lifetime sample_runtime w r [] [("access_token", JStr "abc")]
           (JStr "abc")); reflexivity.
Defined.

(** X4: a 200 answer from which no token can be read (body not JSON,
    not an object, or without [access_token]) is a failed refresh: the
    call returns [None] and the manager keeps token and expiry. *)
Theorem get_token_unusable_body_keeps_cache rt w r rest :
  cache_fresh w = false ->
  token_endpoint w = Responds r :: rest ->
  status_code r = 200 ->
  no_token_in r ->
  get_token rt w = (Done JNull, after_token_post w).
Proof.
  unfold cache_fresh, get_token, no_token_in, after_token_post.
  intros Hmiss E S Hno. step_monad. rewrite Hmiss.
  unfold post_token. step_monad. rewrite E. simpl. rewrite S. simpl.
  unfold response_json. destruct (resp_json r) as [v|]; simpl; [|reflexivity].
  destruct v; simpl; try reflexivity.
  rewrite Hno. reflexivity.
Qed.

Lemma get_token_unusable_body_keeps_cache_witness :
  let r := Response 200 "" (Some (JObj [("error", JStr "denied")])) in
  let w := set_token_endpoint [Responds r]
             (set_token_manager (TokenManager "id" "secret" (JStr "old") 50)
                (set_now 1000 empty_world)) in
  get_token sample_runtime w = (Done JNull, after_token_post w)
  /\ token_manager (after_token_post w) = TokenManager "id" "secret" (JStr "old") 50.
Proof.
  intros r w. split; [|reflexivity].
  apply (get_token_unusable_body_keeps_cache sample_runtime w r []); try reflexivity.
Defined.

(** ** The analysis client, continued *)

(** X5: when the image file cannot be read, [analyze_image_veolia]
    returns [None] and has done nothing: no token request, no analysis
    request, the world is as before. *)
Theorem analyze_unreadable_image_is_silent rt w image_path prompt email url retries :
  find_file image_path (files w) = None ->
  analyze_image_veolia rt image_path prompt email url retries w = (Done JNull, w).
Proof.
  intro Hf. unfold analyze_image_veolia, read_file. step_monad. rewrite Hf. reflexivity.
Qed.

Lemma analyze_unreadable_image_is_silent_witness :
  analyze_image_veolia sample_runtime (Path "captured_images" "missing.jpg") "p" "e" "u" 3
    (analysis_world [Responds (Response 200 "{}" (Some (JObj [])))])
  = (Done JNull, analysis_world [Responds (Response 200 "{}" (Some (JObj [])))]).
Proof.
  apply (analyze_unreadable_image_is_silent sample_runtime
           (analysis_world [Responds (Response 200 "{}" (Some (JObj [])))])).
  reflexivity.
Defined.

(** X6: when [get_token] yields no usable token ([None] or another
    falsy value), the call returns [None] straight after it: no analysis
    request is sent and the analysis script is untouched. *)
Theorem analyze_without_token_sends_nothing rt w image_path prompt email url retries f tok w1 :
  find_file image_path (files w) = Some f ->
  get_token rt w = (Done tok, w1) ->
  py_truthy tok = false ->
  analyze_image_veolia rt image_path prompt email url retries w = (Done JNull, w1)
  /\ api_posts (trace w1) = api_posts (trace w)
  /\ api_endpoint w1 = api_endpoint w.
Proof.
  intros Hf Ht Htok. split.
  - unfold analyze_image_veolia, read_file. step_monad.
    rewrite Hf. simpl. rewrite Ht, Htok. reflexivity.
  - pose proof (api_posts_get_token rt w) as Hp.
    pose proof (get_token_frame rt w) as Hfr.
    rewrite Ht in Hp, Hfr. simpl in Hp, Hfr.
    destruct Hfr as (_ & Hapi & _). auto.
Qed.

Lemma analyze_without_token_sends_nothing_witness :
  let w := set_token_endpoint [Responds (Response 401 "denied" None)]
             (analysis_world [Responds (Response 200 "{}" (Some (JObj [])))]) in
  let w1 := snd (get_token sample_runtime w) in
  analyze_image_veolia sample_runtime sample_image "p" "e" "u" 3 w = (Done JNull, w1)
  /\ api_posts (trace w1) = api_posts (trace w)
  /\ api_endpoint w1 = api_endpoint w.
Proof.
  intros w w1.
  apply (analyze_without_token_sends_nothing sample_runtime w sample_image "p" "e" "u" 3
           sample_file JNull w1); reflexivity.
Defined.

(** X7: when requests [0 .. k-1] fail with a status other than 200 or
    a transport exception and request [k < retries] is answered 200 with
    a JSON body, the call returns that parsed body after exactly [k + 1]
    requests, without sleeping after the last one and without touching
    the rest of the script. *)
Theorem analyze_returns_first_parsed_answer
    rt w image_path prompt email url retries f tok w1 k r v :
  find_file image_path (files w) = Some f ->
  get_token rt w = (Done tok, w1) ->
  py_truthy tok = true ->
  0 <= k < retries ->
  all_retryable (Z.to_nat k) (api_endpoint w) ->
  nth_error (api_endpoint w) (Z.to_nat k) = Some (Responds r) ->
  status_code r = 200 ->
  resp_json r = Some v ->
  let (result, w') := analyze_image_veolia rt image_path prompt email url retries w in
  result = Done v
  /\ api_posts (trace w') = (api_posts (trace w) + Z.to_nat k + 1)%nat
  /\ trace w' = (trace w1
                 ++ backoff_trace url tok (api_payload email prompt (f_data f))
                      (py_range k) (uniform01 w)
                 ++ [EvApiPost url tok (api_payload email prompt (f_data f))])%list
  /\ api_endpoint w' = skipn (S (Z.to_nat k)) (api_endpoint w).
Proof.
  intros Hf Ht Htok Hk Hfail Hnth Hs Hv.
  rewrite (analyze_enters_loop rt w image_path prompt email url retries f tok w1 Hf Ht Htok).
  pose proof (get_token_frame rt w) as Hfr. pose proof (api_posts_get_token rt w) as Hposts.
  rewrite Ht in Hfr, Hposts. simpl in Hfr, Hposts.
  destruct Hfr as (_ & Hapi & Hu & _ & _).
  rewrite <- Hapi in Hfail, Hnth.
  rewrite (retry_loop_200_at url tok _ retries k r w1 Hk Hfail Hnth Hs).
  rewrite Hv. simpl.
  rewrite after_failures_trace, Hu, Hapi.
  split; [reflexivity|].
  split; [|split; [rewrite <- app_assoc; reflexivity | reflexivity]].
  rewrite !api_posts_app, api_posts_backoff, py_range_length, Hposts.
  unfold api_posts at 2. simpl. lia.
Qed.

Lemma analyze_returns_first_parsed_answer_witness :
  let answer := JObj [("water_detected", JBool true); ("confidence", JNum 90);
                      ("analysis_reason", JStr "x")] in
  let w := analysis_world [Responds (Response 500 "" None); Responds (Response 500 "" None);
                           Responds (Response 200 "" (Some answer))] in
  let (result, w') := analyze_image_veolia sample_runtime sample_image "p" "e" "u" 3 w in
  result = Done answer /\ api_posts (trace w') = 3%nat.
Proof.
  intros answer w.
  pose proof (analyze_returns_first_parsed_answer sample_runtime w sample_image "p" "e" "u" 3
                sample_file (JStr "abc") (snd (get_token sample_runtime w)) 2
                (Response 200 "" (Some answer)) answer
                eq_refl eq_refl eq_refl) as H.
  destruct (analyze_image_veolia sample_runtime sample_image "p" "e" "u" 3 w) as [result w'].
  destruct H as (H1 & H2 & _).
  - lia.
  - repeat constructor; simpl; discriminate.
  - reflexivity.
  - reflexivity.
  - reflexivity.
  - split; [exact H1 | exact H2].
Defined.

(** X8: [analyze_image_veolia] neither raises nor exits, whatever the
    file system, the token endpoint and the analysis endpoint do: every
    failure comes back as the value [None]. *)
Theorem analyze_always_returns rt w image_path prompt email url retries :
  exists v w', analyze_image_veolia rt image_path prompt email url retries w = (Done v, w').
Proof.
  destruct (find_file image_path (files w)) as [f|] eqn:Hf.
  - destruct (get_token_done rt w) as (tok & w1 & Ht & _).
    destruct (py_truthy tok) eqn:Htok.
    + pose proof (analyze_trace_shape rt w image_path prompt email url retries f tok w1
                    Hf Ht Htok) as Hs.
      destruct (analyze_image_veolia rt image_path prompt email url retries w) as [result w'].
      cbv zeta in Hs.
      destruct Hs as (_ & _ & [(k & r & _ & _ & _ & _ & Hres & _)|(_ & Hres & _)]);
        subst result; do 2 eexists; reflexivity.
    + do 2 eexists. unfold analyze_image_veolia, read_file. step_monad.
      rewrite Hf. simpl. rewrite Ht, Htok. reflexivity.
  - do 2 eexists. unfold analyze_image_veolia, read_file. step_monad.
    rewrite Hf. reflexivity.
Qed.

(** ** The capture sources, continued *)

(** X9: with a camera section that lacks a usable [ip], [user] or
    [password], [capture_image_reolink] returns [None] at once: no
    directory is made, no request is sent, the world is as before. *)
Theorem reolink_incomplete_config_fails_fast rt w fields cam filename_prefix retries :
  get_or "camera" (JObj []) fields = JObj cam ->
  py_truthy (get_or "ip" JNull cam) && py_truthy (get_or "user" JNull cam)
    && py_truthy (get_or "password" JNull cam) = false ->
  capture_image_reolink rt (JObj fields) filename_prefix retries w = (Done None, w).
Proof.
  unfold get_or, capture_image_reolink, dict_get. intros Hcam Hinc. step_monad.
  rewrite Hcam. simpl. rewrite Hinc. reflexivity.
Qed.

Lemma reolink_incomplete_config_fails_fast_witness :
  capture_image_reolink sample_runtime
    (JObj [("camera", JObj [("type", JStr "reolink"); ("ip", JStr "10.0.0.2");
                            ("user", JStr "admin"); ("password", JStr "")])])
    "image" 3 capture_world
  = (Done None, capture_world).
Proof.
  apply (reolink_incomplete_config_fails_fast sample_runtime capture_world
           [("camera", JObj [("type", JStr "reolink"); ("ip", JStr "10.0.0.2");
                             ("user", JStr "admin"); ("password", JStr "")])]
           [("type", JStr "reolink"); ("ip", JStr "10.0.0.2");
            ("user", JStr "admin"); ("password", JStr "")]);
    reflexivity.
Defined.

(** X10: when the destination directory cannot be made, neither
    capture function returns [None]: the [OSError] of [os.makedirs]
    leaves the function before any attempt is made. *)
Theorem capture_without_directory_raises rt w retries :
  makedirs_ok w = false ->
  (forall image_dir filename_prefix camera_index,
      capture_image_local rt image_dir filename_prefix camera_index retries w
      = (Raised OSError, set_trace (trace w ++ [EvMakedirs image_dir]) w))
  /\ (forall config filename_prefix ip user password image_dir,
         reolink_configured config ip user password image_dir ->
         capture_image_reolink rt config filename_prefix retries w
         = (Raised OSError, set_trace (trace w ++ [EvMakedirs image_dir]) w)).
Proof.
  intro Hm. split.
  - intros image_dir filename_prefix camera_index.
    unfold capture_image_local, os_makedirs. step_monad. rewrite Hm. reflexivity.
  - intros config filename_prefix ip user password image_dir
           (fields & cam & -> & Hcam & Hip & Huser & Hpw & Tip & Tuser & Tpw & Hdir).
    unfold capture_image_reolink, dict_get, os_makedirs, as_str. step_monad.
    rewrite Hcam. simpl. rewrite Hip, Huser, Hpw, Tip, Tuser, Tpw. simpl.
    assert (Ed : match dict_lookup "image_dir" fields with
                 | Some x => x
                 | None => JStr "captured_images"
                 end = JStr image_dir).
    { destruct (dict_lookup "image_dir" fields); congruence. }
    rewrite Ed. simpl. rewrite Hm. reflexivity.
Qed.

Lemma capture_without_directory_raises_witness :
  let w := MkWorld 0 (new_token_manager "id" "secret") [] [] [] [Some "frame"] [] [] []
             false [] [] in
  capture_image_local sample_runtime "captured_images" "image" 0 3 w
  = (Raised OSError, set_trace [EvMakedirs "captured_images"] w).
Proof.
  intro w.
  destruct (capture_without_directory_raises sample_runtime w 3 eq_refl) as [H _].
  exact (H "captured_images" "image" 0).
Defined.



Lemma after_reolink_failure_keeps_file ip rs user password filepath w :
  (exists f, find_file filepath (files w) = Some f /\ f_data f = "") ->
  exists f, find_file filepath (files (after_reolink_failure ip rs user password filepath w))
            = Some f /\ f_data f = "".
Proof.
  intro H. unfold after_reolink_failure.
  destruct (snapshot_endpoint w) as [|[status body ok|] rest]; simpl; try exact H.
  destruct (status =? 200); simpl; [|exact H].
  eexists. split; [apply find_file_head | reflexivity].
Qed.

Lemma after_reolink_failures_keep_file ip rs user password filepath n :
  forall w,
    (exists f, find_file filepath (files w) = Some f /\ f_data f = "") ->
    exists f,
      find_file filepath
        (files (Nat.iter n (after_reolink_failure ip rs user password filepath) w))
      = Some f /\ f_data f = "".
Proof.
  induction n as [|n IH]; intros w H.
  - exact H.
  - rewrite Nat.iter_succ_r. apply IH. apply after_reolink_failure_keeps_file. exact H.
Qed.

Lemma broken_stream_leaves_file ip rs user password filepath n :
  forall w j body,
    (j < n)%nat ->
    nth_error (snapshot_endpoint w) j = Some (Snapshot 200 body false) ->
    exists f,
      find_file filepath
        (files (Nat.iter n (after_reolink_failure ip rs user password filepath) w))
      = Some f /\ f_data f = "".
Proof.
  induction n as [|n IH]; intros w j body Hj Hnth; [lia|].
  rewrite Nat.iter_succ_r. destruct j as [|j].
  - apply after_reolink_failures_keep_file.
    unfold after_reolink_failure.
    destruct (snapshot_endpoint w) as [|o rest]; [discriminate Hnth|].
    simpl in Hnth. inversion Hnth; subst o. simpl.
    eexists. split; [apply find_file_head | reflexivity].
  - apply (IH _ j body); [lia|].
    unfold after_reolink_failure.
    destruct (snapshot_endpoint w) as [|[status body0 ok|] rest]; simpl in *;
      [discriminate Hnth | destruct (status =? 200); exact Hnth | exact Hnth].
Qed.

(** X12: a network capture that fails can still leave a file behind:
    when every attempt fails and one of them was answered 200 with a
    stream that broke, the call returns [None] and yet the destination
    path exists. *)
Theorem reolink_failed_capture_leaves_file
    rt w config filename_prefix retries ip user password image_dir j body :
  reolink_configured config ip user password image_dir ->
  makedirs_ok w = true ->
  no_snapshots (Z.to_nat retries) (snapshot_endpoint w) ->
  (j < Z.to_nat retries)%nat ->
  nth_error (snapshot_endpoint w) j = Some (Snapshot 200 body false) ->
  let filepath := path_join image_dir (image_filename rt filename_prefix (now w)) in
  let (result, w') := capture_image_reolink rt config filename_prefix retries w in
  result = Done None
  /\ exists f, find_file filepath (files w') = Some f.
Proof.
  intros Hc Hm Hall Hj Hnth filepath.
  rewrite (capture_reolink_all_fail rt config filename_prefix retries w _ _ _ _ Hc Hm Hall).
  split; [reflexivity|].
  destruct (broken_stream_leaves_file ip (hd "aaaaaa" (random_str w)) user password filepath
              (Z.to_nat retries)
              (set_random_str (tl (random_str w))
                 (set_trace (trace w ++ [EvMakedirs image_dir]) w))
              j body Hj Hnth) as (f & Hf & _).
  exists f. exact Hf.
Qed.

Lemma reolink_failed_capture_leaves_file_witness :
  let (result, w') :=
    capture_image_reolink sample_runtime sample_config "image" 3 broken_stream_world in
  result = Done None
  /\ exists f, find_file (Path "captured_images" "image_100.jpg") (files w') = Some f.
Proof.
  apply (reolink_failed_capture_leaves_file sample_runtime broken_stream_world sample_config
           "image" 3 _ _ _ _ 1%nat "jpeg" sample_config_configured).
  - reflexivity.
  - unfold no_snapshots. simpl.
    constructor; [exact I|]. constructor; [right; reflexivity|].
    constructor; [left; discriminate | constructor].
  - simpl. lia.
  - reflexivity.
Defined.

(** ** The retention sweep, continued *)

(** The world a sweep leaves. *)
Lemma cleanup_images_result image_dir max_age_seconds w :
  cleanup_images image_dir max_age_seconds w
  = (Done JNull,
     fold_left (sweep_one (now w) max_age_seconds)
       (map f_path (filter (considered image_dir) (files w))) w).
Proof.
  unfold cleanup_images, glob_jpg. step_monad. rewrite cleanup_loop_sweeps. reflexivity.
Qed.

Lemma cleanup_images_files image_dir max_age_seconds w :
  NoDup (map f_path (files w)) ->
  let w' := snd (cleanup_images image_dir max_age_seconds w) in
  files w' = filter (kept image_dir (now w) max_age_seconds) (files w)
  /\ now w' = now w
  /\ (removals (trace w') + List.length (files w')
      = removals (trace w) + List.length (files w))%nat.
Proof.
  intro Hnd. rewrite cleanup_images_result. cbv zeta. simpl.
  destruct (sweep_counts (now w) max_age_seconds
              (map f_path (filter (considered image_dir) (files w))) w Hnd) as [Hc Hn].
  split; [|split; [exact Hn | exact Hc]].
  rewrite sweep_files by exact Hnd. apply filter_ext_in. intros f Hin.
  unfold kept. rewrite glob_lists_considered by exact Hin. reflexivity.
Qed.

Lemma filter_idempotent {A} (p : A -> bool) (l : list A) : filter p (filter p l) = filter p l.
Proof.
  rewrite filter_twice. apply filter_ext. intro x. destruct (p x); reflexivity.
Qed.

(** X13: a sweep is idempotent: run again at the same clock reading
    with the same threshold, it removes nothing; the directory and the
    number of removals stay as the first sweep left them. *)
Theorem cleanup_images_idempotent w image_dir max_age_seconds :
  NoDup (map f_path (files w)) ->
  let w1 := snd (cleanup_images image_dir max_age_seconds w) in
  let w2 := snd (cleanup_images image_dir max_age_seconds w1) in
  files w2 = files w1 /\ removals (trace w2) = removals (trace w1).
Proof.
  intros Hnd w1 w2.
  destruct (cleanup_images_files image_dir max_age_seconds w Hnd) as (Hf1 & Hn1 & _).
  fold w1 in Hf1, Hn1.
  assert (Hnd1 : NoDup (map f_path (files w1))).
  { rewrite Hf1. apply NoDup_map_filter. exact Hnd. }
  destruct (cleanup_images_files image_dir max_age_seconds w1 Hnd1) as (Hf2 & _ & Hc2).
  fold w2 in Hf2, Hc2.
  assert (E : files w2 = files w1).
  { rewrite Hf2, Hn1, Hf1. apply filter_idempotent. }
  split; [exact E|]. rewrite E in Hc2. lia.
Qed.

Lemma cleanup_images_idempotent_witness :
  let w1 := snd (cleanup_images "captured_images" 300 sweep_world) in
  let w2 := snd (cleanup_images "captured_images" 300 w1) in
  files w2 = files w1 /\ removals (trace w2) = removals (trace w1).
Proof.
  apply (cleanup_images_idempotent sweep_world "captured_images" 300).
  simpl.
  repeat (constructor;
          [simpl; intro H; repeat (destruct H as [H|H]; [discriminate H|]); exact H|]).
  constructor.
Defined.

(** ** The dataset loop, continued *)




(** X15: after a successful capture the iteration sleeps for what is
    left of [capture_interval]: when the work took less than the interval
    the next iteration starts one interval after this one started; when
    it took as long or longer there is no sleep at all. *)
Theorem dataset_iteration_keeps_cadence rt max_failures L cf w cf' w1 :
  duration_reached L w = false ->
  dataset_try_body rt max_failures L cf w = (Done (FellThrough, cf'), w1) ->
  let elapsed := (now w1 - now w)%Q in
  ((elapsed < dl_capture_interval L)%Q ->
   exists w',
     dataset_iteration rt max_failures L cf w = (Done (LoopAgain, cf'), w')
     /\ (now w' == now w + dl_capture_interval L)%Q
     /\ trace w' = (trace w1 ++ [EvSleep (dl_capture_interval L - elapsed)])%list)
  /\ ((dl_capture_interval L <= elapsed)%Q ->
      dataset_iteration rt max_failures L cf w = (Done (LoopAgain, cf'), w1)).
Proof.
  intros Hd Hb elapsed.
  rewrite dataset_iteration_runs by exact Hd. rewrite Hb. cbv zeta. fold elapsed.
  split; intro H.
  - assert (E : Qltb 0 (dl_capture_interval L - elapsed) = true) by (apply Qltb_lt; lra).
    rewrite E. eexists. split; [reflexivity|]. simpl. split; [|reflexivity].
    unfold elapsed. ring.
  - assert (E : Qltb 0 (dl_capture_interval L - elapsed) = false) by (apply Qltb_ge; lra).
    rewrite E. reflexivity.
Qed.

Lemma dataset_iteration_keeps_cadence_witness :
  let w := set_webcam [None; Some "frame"] empty_world in
  exists w',
    dataset_iteration sample_runtime 10 sample_dataset_locals 0 w = (Done (LoopAgain, 0), w')
    /\ (now w' == now w + 60)%Q.
Proof.
  intro w.
  destruct (dataset_try_body sample_runtime 10 sample_dataset_locals 0 w) as [res w1] eqn:E.
  vm_compute in E. inversion E as [[Hres Hw1]].
  destruct (dataset_iteration_keeps_cadence sample_runtime 10 sample_dataset_locals 0 w 0 w1
              eq_refl) as [H _].
  - rewrite <- Hw1. vm_compute. reflexivity.
  - destruct H as (w' & H1 & H2 & _).
    + rewrite <- Hw1. vm_compute. reflexivity.
    + exists w'. split; [exact H1 | exact H2].
Defined.

(** X16: the upload step never disturbs the loop.  With Drive disabled
    or no folder id it does nothing; otherwise it calls [upload_file]
    once for the captured path, and whether that returns an id, returns
    [None] or raises, the step completes normally. *)
Theorem dataset_upload_never_fails L p w :
  (dl_drive_enabled L && py_truthy (dl_drive_folder_id L) = false ->
   dataset_upload L p w = (Done tt, w))
  /\ (dl_drive_enabled L && py_truthy (dl_drive_folder_id L) = true ->
      exists w',
        dataset_upload L p w = (Done tt, w')
        /\ trace w' = (trace w ++ [EvUpload p])%list
        /\ uploads w' = tl (uploads w)
        /\ files w' = files w).
Proof.
  unfold dataset_upload, upload_file. step_monad. split; intro H.
  - destruct (dl_drive_enabled L); [|reflexivity]. simpl in H. rewrite H. reflexivity.
  - apply andb_true_iff in H. destruct H as [He Hf]. rewrite He, Hf. simpl.
    destruct (uploads w) as [|[v|] rest] eqn:U; simpl; eexists;
      (split; [reflexivity|]); simpl; rewrite ?U; auto.
Qed.

Lemma dataset_upload_never_fails_witness :
  let w := set_uploads [UploadRaises] empty_world in
  exists w',
    dataset_upload upload_locals sample_image w = (Done tt, w')
    /\ trace w' = (trace w ++ [EvUpload sample_image])%list
    /\ uploads w' = tl (uploads w)
    /\ files w' = files w.
Proof.
  intro w.
  destruct (dataset_upload_never_fails upload_locals sample_image w) as [_ H].
  apply H. reflexivity.
Defined.

(** Item assignment and lookup on a dict. *)
Lemma dict_lookup_set_same k v fields : dict_lookup k (dict_set k v fields) = Some v.
Proof.
  induction fields as [|[k' v'] rest IH]; simpl.
  - rewrite String.eqb_refl. reflexivity.
  - destruct (String.eqb k k') eqn:E; simpl.
    + rewrite String.eqb_refl. reflexivity.
    + rewrite E. exact IH.
Qed.

Lemma dict_lookup_set_other k k' v fields :
  k <> k' -> dict_lookup k' (dict_set k v fields) = dict_lookup k' fields.
Proof.
  intro Hne. induction fields as [|[k0 v0] rest IH]; simpl.
  - apply String.eqb_neq in Hne. rewrite String.eqb_sym, Hne. reflexivity.
  - destruct (String.eqb k k0) eqn:E; simpl.
    + apply String.eqb_eq in E. subst k0.
      assert (E' : String.eqb k' k = false)
        by (apply String.eqb_neq; intro; apply Hne; congruence).
      rewrite E'. reflexivity.
    + destruct (String.eqb k' k0); [reflexivity | exact IH].
Qed.

(** X17: in the dataset loop a network capture is saved in the daily
    directory whatever [image_dir] the configuration names: the loop's
    copy of the configuration overrides that key, so a capture that
    succeeds returns a path directly under the daily directory. *)
Theorem dataset_reolink_capture_in_daily_dir rt L dir w cam ip user password :
  String.eqb (dl_cam_type L) "reolink" = true ->
  dict_lookup "camera" (dl_config L) = Some (JObj cam) ->
  dict_lookup "ip" cam = Some ip ->
  dict_lookup "user" cam = Some user ->
  dict_lookup "password" cam = Some password ->
  py_truthy ip = true -> py_truthy user = true -> py_truthy password = true ->
  makedirs_ok w = true ->
  let (result, w') := dataset_capture rt L dir w in
  result = Done None
  \/ result = Done (Some (path_join dir (image_filename rt "dataset_image" (now w)))).
Proof.
  intros Hcam Hc Hip Hu Hp Tip Tu Tp Hm.
  unfold dataset_capture. rewrite Hcam.
  assert (Hconf : reolink_configured
                    (JObj (dict_set "image_dir" (JStr dir) (dl_config L)))
                    ip user password dir).
  { exists (dict_set "image_dir" (JStr dir) (dl_config L)), cam.
    split; [reflexivity|].
    split; [rewrite dict_lookup_set_other by discriminate; exact Hc|].
    repeat (split; [assumption|]).
    rewrite dict_lookup_set_same. reflexivity. }
  destruct (snapshot_cases (Z.to_nat 3) (snapshot_endpoint w))
    as [Hall|(k & body & Hk & Hf & Hn)].
  - rewrite (capture_reolink_all_fail rt _ "dataset_image" 3 w _ _ _ _ Hconf Hm Hall).
    left. reflexivity.
  - rewrite <- (Nat2Z.id k) in Hf, Hn.
    assert (Hk' : 0 <= Z.of_nat k < 3) by lia.
    rewrite (capture_reolink_ok_at rt _ "dataset_image" 3 w _ _ _ _ (Z.of_nat k) body
               Hconf Hm Hk' Hf Hn).
    right. reflexivity.
Qed.

Lemma dataset_reolink_capture_in_daily_dir_witness :
  let (result, w') :=
    dataset_capture sample_runtime reolink_locals "dataset_images/19700101" capture_world in
  result = Done (Some (Path "dataset_images/19700101" "dataset_image_100.jpg")).
Proof.
  pose proof (dataset_reolink_capture_in_daily_dir sample_runtime reolink_locals
                "dataset_images/19700101" capture_world
                [("type", JStr "reolink"); ("ip", JStr "10.0.0.2");
                 ("user", JStr "admin"); ("password", JStr "pw")]
                (JStr "10.0.0.2") (JStr "admin") (JStr "pw")
                eq_refl eq_refl eq_refl eq_refl eq_refl eq_refl eq_refl eq_refl eq_refl) as H.
  destruct (dataset_capture sample_runtime reolink_locals "dataset_images/19700101"
              capture_world) as [result w'] eqn:E.
  destruct H as [H|H]; [|exact H].
  vm_compute in E. rewrite H in E. discriminate E.
Defined.

(** ** The alerting loop, continued *)






(** ** Configuration *)

Lemma load_config_lookups fields getenv :
  exists fields',
    load_config (YamlDocument (JObj fields)) getenv = ConfigLoaded (JObj fields')
    /\ dict_lookup "VEOLIA_CLIENT_ID" fields' = Some (env_value getenv "VEOLIA_CLIENT_ID")
    /\ dict_lookup "VEOLIA_CLIENT_SECRET" fields'
       = Some (env_value getenv "VEOLIA_CLIENT_SECRET")
    /\ dict_lookup "USER_EMAIL" fields' = Some (env_value getenv "USER_EMAIL")
    /\ dict_lookup "VEOLIA_API_BASE_URL" fields'
       = Some (env_value getenv "VEOLIA_API_BASE_URL")
    /\ forall k, ~ In k veolia_keys -> dict_lookup k fields' = dict_lookup k fields.
Proof.
  eexists. split; [reflexivity|]. cbv zeta.
  repeat split.
  - rewrite !dict_lookup_set_other by discriminate. apply dict_lookup_set_same.
  - rewrite !dict_lookup_set_other by discriminate. apply dict_lookup_set_same.
  - rewrite !dict_lookup_set_other by discriminate. apply dict_lookup_set_same.
  - apply dict_lookup_set_same.
  - intros k Hk. unfold veolia_keys in Hk. simpl in Hk.
    rewrite !dict_lookup_set_other; [reflexivity | | | |];
      intro E; apply Hk; rewrite E; auto.
Qed.

(** X20: [load_config] succeeds exactly on a document that is a
    mapping.  Its result then holds each of the four Veolia settings with
    the value of the environment variable of that name, [None] when the
    variable is unset, whatever the document said under that key; every
    other key is as in the document. *)
Theorem load_config_takes_veolia_settings_from_env yaml getenv :
  match load_config yaml getenv with
  | ConfigLoaded config =>
      exists fields fields',
        yaml = YamlDocument (JObj fields)
        /\ config = JObj fields'
        /\ (forall k, In k veolia_keys -> dict_lookup k fields' = Some (env_value getenv k))
        /\ (forall k, ~ In k veolia_keys -> dict_lookup k fields' = dict_lookup k fields)
  | ConfigReadError => yaml = YamlRaises
  | ConfigTypeError => exists v, yaml = YamlDocument v /\ forall fields, v <> JObj fields
  end.
Proof.
  destruct yaml as [v|]; [|reflexivity].
  destruct v; try (simpl; eexists; split; [reflexivity|]; intros ? H; discriminate H).
  destruct (load_config_lookups fields getenv) as (fields' & E & H1 & H2 & H3 & H4 & H5).
  rewrite E. exists fields, fields'. repeat split; auto.
  intros k Hk. unfold veolia_keys in Hk. simpl in Hk.
  destruct Hk as [<-|[<-|[<-|[<-|[]]]]]; assumption.
Qed.

(** [main_loop] before its loop, on a configuration that is a dict. *)
Lemma main_loop_prologue_on_dict lower fields w :
  main_loop_prologue lower (JObj fields) w
  = if negb (py_truthy (get_or "prompt" JNull fields)) then (Done None, w)
    else
      match get_or "camera" (JObj []) fields with
      | JObj cam =>
          match get_or "type" (JStr "local") cam with
          | JStr s =>
              if negb (py_truthy (get_or "VEOLIA_CLIENT_ID" JNull fields)
                       && py_truthy (get_or "VEOLIA_CLIENT_SECRET" JNull fields)
                       && py_truthy (get_or "USER_EMAIL" JNull fields)
                       && py_truthy (get_or "VEOLIA_API_BASE_URL" JNull fields))
              then (Done None, w)
              else (Done (Some (MkMainLoopEntry
                                  (get_or "prompt" JNull fields) (lower s)
                                  (get_or "camera_index" (JNum 0) fields)
                                  (get_or "image_dir" (JStr "captured_images") fields)
                                  (get_or "capture_interval" (JNum 10) fields)
                                  (get_or "cleanup_age" (JNum 300) fields)
                                  (get_or "VEOLIA_CLIENT_ID" JNull fields)
                                  (get_or "VEOLIA_CLIENT_SECRET" JNull fields)
                                  (get_or "USER_EMAIL" JNull fields)
                                  (get_or "VEOLIA_API_BASE_URL" JNull fields))), w)
          | _ => (Raised AttributeError, w)
          end
      | _ => (Raised AttributeError, w)
      end.
Proof.
  unfold main_loop_prologue, dict_get, py_lower, get_or. step_monad.
  destruct (py_truthy match dict_lookup "prompt" fields with
                      | Some x => x
                      | None => JNull
                      end); simpl; [|reflexivity].
  destruct (match dict_lookup "camera" fields with
            | Some x => x
            | None => JObj []
            end); simpl; try reflexivity.
  destruct (match dict_lookup "type" fields0 with
            | Some x => x
            | None => JStr "local"
            end); simpl; try reflexivity.
  destruct (py_truthy _ && py_truthy _ && py_truthy _ && py_truthy _); reflexivity.
Qed.

(** X21: [main_loop] reaches its loop only when all four Veolia
    settings are set and non-empty in the environment [load_config] read:
    if it goes on after its first lines, the credentials it holds are the
    environment's; if one of the four variables is unset or empty it
    returns (or raises on a malformed camera section) without having done
    anything. *)
Theorem main_loop_needs_environment yaml getenv config lower w :
  load_config yaml getenv = ConfigLoaded config ->
  (forall entry w',
      main_loop_prologue lower config w = (Done (Some entry), w') ->
      w' = w
      /\ (forall k, In k veolia_keys -> py_truthy (env_value getenv k) = true)
      /\ ml_client_id entry = env_value getenv "VEOLIA_CLIENT_ID"
      /\ ml_client_secret entry = env_value getenv "VEOLIA_CLIENT_SECRET"
      /\ ml_user_email entry = env_value getenv "USER_EMAIL"
      /\ ml_api_base_url entry = env_value getenv "VEOLIA_API_BASE_URL")
  /\ ((exists k, In k veolia_keys /\ py_truthy (env_value getenv k) = false) ->
      main_loop_prologue lower config w = (Done None, w)
      \/ main_loop_prologue lower config w = (Raised AttributeError, w)).
Proof.
  intro Hload.
  destruct yaml as [v|]; [|discriminate Hload].
  destruct v; try discriminate Hload.
  destruct (load_config_lookups fields getenv) as (fields' & E & H1 & H2 & H3 & H4 & _).
  rewrite E in Hload. inversion Hload; subst config; clear Hload E.
  rewrite main_loop_prologue_on_dict.
  assert (G1 : get_or "VEOLIA_CLIENT_ID" JNull fields'
               = env_value getenv "VEOLIA_CLIENT_ID") by (unfold get_or; rewrite H1; reflexivity).
  assert (G2 : get_or "VEOLIA_CLIENT_SECRET" JNull fields'
               = env_value getenv "VEOLIA_CLIENT_SECRET")
    by (unfold get_or; rewrite H2; reflexivity).
  assert (G3 : get_or "USER_EMAIL" JNull fields' = env_value getenv "USER_EMAIL")
    by (unfold get_or; rewrite H3; reflexivity).
  assert (G4 : get_or "VEOLIA_API_BASE_URL" JNull fields'
               = env_value getenv "VEOLIA_API_BASE_URL")
    by (unfold get_or; rewrite H4; reflexivity).
  rewrite !G1, !G2, !G3, !G4.
  destruct (negb (py_truthy (get_or "prompt" JNull fields'))).
  { split; [intros entry w' H; discriminate H | intros _; left; reflexivity]. }
  destruct (get_or "camera" (JObj []) fields');
    try (split; [intros entry w' H; discriminate H | intros _; right; reflexivity]).
  destruct (get_or "type" (JStr "local") fields0);
    try (split; [intros entry w' H; discriminate H | intros _; right; reflexivity]).
  destruct (py_truthy (env_value getenv "VEOLIA_CLIENT_ID")) eqn:T1;
    destruct (py_truthy (env_value getenv "VEOLIA_CLIENT_SECRET")) eqn:T2;
    destruct (py_truthy (env_value getenv "USER_EMAIL")) eqn:T3;
    destruct (py_truthy (env_value getenv "VEOLIA_API_BASE_URL")) eqn:T4; simpl;
    try (split; [intros entry w' H; discriminate H | intros _; left; reflexivity]).
  split.
  - intros entry w' H. inversion H; subst. simpl. repeat split; auto.
    intros k Hk. unfold veolia_keys in Hk. simpl in Hk.
    destruct Hk as [<-|[<-|[<-|[<-|[]]]]]; assumption.
  - intros (k & Hk & Hf). unfold veolia_keys in Hk. simpl in Hk.
    destruct Hk as [<-|[<-|[<-|[<-|[]]]]]; congruence.
Qed.

Lemma main_loop_needs_environment_witness :
  exists config,
    load_config (YamlDocument sample_document) sample_env = ConfigLoaded config
    /\ dict_lookup "USER_EMAIL"
         (match config with JObj fields => fields | _ => [] end) = Some JNull
    /\ (main_loop_prologue (fun s => s) config empty_world = (Done None, empty_world)
        \/ main_loop_prologue (fun s => s) config empty_world
           = (Raised AttributeError, empty_world)).
Proof.
  eexists. split; [reflexivity|]. split; [reflexivity|].
  apply (proj2 (main_loop_needs_environment (YamlDocument sample_document) sample_env _
                  (fun s => s) empty_world eq_refl)).
  exists "USER_EMAIL". split; [simpl; auto | reflexivity].
Defined.

(** ** The Drive classifier *)

Lemma normal_anomaly_exclusive f : is_normal f && is_anomaly f = false.
Proof.
  unfold is_normal, is_anomaly. destruct (df_name f) as [|c s]; [reflexivity|].
  cbn [prefix]. destruct (ascii_dec "n" c) as [E|NE]; [|reflexivity].
  subst c. destruct (ascii_dec "a" "n") as [E|_]; [discriminate E|].
  apply andb_false_r.
Qed.

(** X22: the statistics [load_drive_images] shows add up: every entry
    of the listing is counted exactly once, as normal, as anomaly or as
    pending, and the pending list holds no entry whose name starts with
    [normal_] or [anomaly_]. *)
Theorem drive_stats_add_up items :
  let s := load_stats items in
  stats_total s = (stats_normal s + stats_anomaly s + stats_pending s)%nat
  /\ Forall (fun f => is_normal f = false /\ is_anomaly f = false) (pending_files items).
Proof.
  simpl. split.
  - unfold normal_files, anomaly_files, pending_files.
    induction items as [|f items IH]; simpl; [reflexivity|].
    pose proof (normal_anomaly_exclusive f) as Hx.
    destruct (is_normal f), (is_anomaly f); simpl in *; try discriminate Hx; lia.
  - apply Forall_forall. intros f Hin. unfold pending_files in Hin.
    apply filter_In in Hin. destruct Hin as [_ H].
    apply negb_true_iff, orb_false_iff in H. exact H.
Qed.

Lemma download_and_show_image_in_range j c :
  0 <= j < Z.of_nat (List.length (drive_files c)) ->
  exists f,
    nth_error (drive_files c) (Z.to_nat j) = Some f
    /\ download_and_show_image j c = MkClassifier (drive_files c) j (Some (df_id f)).
Proof.
  intro Hj. unfold download_and_show_image.
  assert (E1 : (j <? 0) = false) by (apply Z.ltb_ge; lia).
  assert (E2 : (j >=? Z.of_nat (List.length (drive_files c))) = false)
    by (rewrite Z.geb_leb; apply Z.leb_gt; lia).
  rewrite E1, E2. simpl.
  destruct (nth_error (drive_files c) (Z.to_nat j)) as [f|] eqn:E.
  - exists f. split; reflexivity.
  - apply nth_error_None in E. lia.
Qed.

Lemma next_image_step c :
  showing c ->
  let j := if current_file_index c + 1 >=? Z.of_nat (List.length (drive_files c))
           then 0 else current_file_index c + 1 in
  0 <= j < Z.of_nat (List.length (drive_files c))
  /\ next_image c = download_and_show_image j c.
Proof.
  intros [Hi _] j. unfold next_image.
  destruct (drive_files c) as [|f0 fs] eqn:E; [simpl in Hi; lia|].
  split; [|reflexivity]. unfold j.
  destruct (current_file_index c + 1 >=? Z.of_nat (List.length (f0 :: fs))) eqn:G.
  - lia.
  - rewrite Z.geb_leb in G. apply Z.leb_gt in G. lia.
Qed.

Lemma prev_image_step c :
  showing c ->
  let j := if current_file_index c - 1 <? 0
           then Z.of_nat (List.length (drive_files c)) - 1 else current_file_index c - 1 in
  0 <= j < Z.of_nat (List.length (drive_files c))
  /\ prev_image c = download_and_show_image j c.
Proof.
  intros [Hi _] j. unfold prev_image.
  destruct (drive_files c) as [|f0 fs] eqn:E; [simpl in Hi; lia|].
  split; [|reflexivity]. unfold j.
  destruct (current_file_index c - 1 <? 0) eqn:G.
  - lia.
  - apply Z.ltb_ge in G. lia.
Qed.

Lemma showing_after_show j c :
  0 <= j < Z.of_nat (List.length (drive_files c)) ->
  showing (download_and_show_image j c)
  /\ drive_files (download_and_show_image j c) = drive_files c
  /\ current_file_index (download_and_show_image j c) = j.
Proof.
  intro Hj. destruct (download_and_show_image_in_range j c Hj) as (f & Hf & E).
  rewrite E. unfold showing. simpl. rewrite Hf. auto.
Qed.

Lemma show_current c : showing c -> download_and_show_image (current_file_index c) c = c.
Proof.
  intros [Hi Hid].
  destruct (download_and_show_image_in_range (current_file_index c) c Hi) as (f & Hf & E).
  rewrite E. rewrite Hf in Hid. simpl in Hid. destruct c as [fs i id]. simpl in *.
  rewrite Hid. reflexivity.
Qed.

Lemma show_twice i j c :
  0 <= i < Z.of_nat (List.length (drive_files c)) ->
  0 <= j < Z.of_nat (List.length (drive_files c)) ->
  download_and_show_image j (download_and_show_image i c) = download_and_show_image j c.
Proof.
  intros Hi Hj. destruct (download_and_show_image_in_range i c Hi) as (f & _ & E).
  rewrite E.
  destruct (download_and_show_image_in_range j c Hj) as (g & Hg & E1).
  destruct (download_and_show_image_in_range j
              (MkClassifier (drive_files c) i (Some (df_id f))) Hj) as (g' & Hg' & E2).
  rewrite E1, E2. simpl in *. congruence.
Qed.

(** X23: stepping through the pending images.  When the classifier
    shows one of its files, [next_image] and [prev_image] show one again,
    wrap around at the ends of the list, and undo each other. *)
Theorem navigation_wraps_and_inverts c :
  showing c ->
  let n := Z.of_nat (List.length (drive_files c)) in
  showing (next_image c)
  /\ showing (prev_image c)
  /\ current_file_index (next_image c)
     = (if current_file_index c =? n - 1 then 0 else current_file_index c + 1)
  /\ current_file_index (prev_image c)
     = (if current_file_index c =? 0 then n - 1 else current_file_index c - 1)
  /\ prev_image (next_image c) = c
  /\ next_image (prev_image c) = c.
Proof.
  intros Hs n.
  destruct (next_image_step c Hs) as [Hj En]. destruct (prev_image_step c Hs) as [Hk Ep].
  cbv zeta in *.
  set (j := if current_file_index c + 1 >=? Z.of_nat (List.length (drive_files c))
            then 0 else current_file_index c + 1) in *.
  set (k := if current_file_index c - 1 <? 0
            then Z.of_nat (List.length (drive_files c)) - 1
            else current_file_index c - 1) in *.
  destruct (showing_after_show j c Hj) as (Hsj & Hfj & Hij).
  destruct (showing_after_show k c Hk) as (Hsk & Hfk & Hik).
  pose proof Hs as [Hi _].
  assert (Ej : j = if current_file_index c =? n - 1 then 0 else current_file_index c + 1).
  { unfold j, n. destruct (current_file_index c =? _) eqn:E1;
      destruct (current_file_index c + 1 >=? _) eqn:E2; try reflexivity;
      rewrite Z.geb_leb in E2;
      [apply Z.eqb_eq in E1; apply Z.leb_gt in E2 | apply Z.eqb_neq in E1; apply Z.leb_le in E2];
      lia. }
  assert (Ek : k = if current_file_index c =? 0 then n - 1 else current_file_index c - 1).
  { unfold k, n. destruct (current_file_index c =? 0) eqn:E1;
      destruct (current_file_index c - 1 <? 0) eqn:E2; try reflexivity;
      [apply Z.eqb_eq in E1; apply Z.ltb_ge in E2 | apply Z.eqb_neq in E1; apply Z.ltb_lt in E2];
      lia. }
  rewrite En, Ep.
  split; [exact Hsj|]. split; [exact Hsk|].
  split; [rewrite Hij; exact Ej|]. split; [rewrite Hik; exact Ek|].
  split.
  - destruct (prev_image_step _ Hsj) as [_ E]. rewrite E. cbv zeta.
    rewrite Hfj, Hij.
    replace (if j - 1 <? 0 then Z.of_nat (List.length (drive_files c)) - 1 else j - 1)
      with (current_file_index c);
      [rewrite show_twice by assumption; apply show_current; exact Hs|].
    rewrite Ej. unfold n.
    destruct (current_file_index c =? Z.of_nat (List.length (drive_files c)) - 1) eqn:E1.
    + apply Z.eqb_eq in E1. simpl. lia.
    + apply Z.eqb_neq in E1.
      destruct (current_file_index c + 1 - 1 <? 0) eqn:E2;
        [apply Z.ltb_lt in E2 | apply Z.ltb_ge in E2]; lia.
  - destruct (next_image_step _ Hsk) as [_ E]. rewrite E. cbv zeta.
    rewrite Hfk, Hik.
    replace (if k + 1 >=? Z.of_nat (List.length (drive_files c)) then 0 else k + 1)
      with (current_file_index c);
      [rewrite show_twice by assumption; apply show_current; exact Hs|].
    rewrite Ek. unfold n.
    destruct (current_file_index c =? 0) eqn:E1.
    + apply Z.eqb_eq in E1.
      destruct (Z.of_nat (List.length (drive_files c)) - 1 + 1 >=? _) eqn:E2;
        rewrite Z.geb_leb in E2; [apply Z.leb_le in E2 | apply Z.leb_gt in E2]; lia.
    + apply Z.eqb_neq in E1.
      destruct (current_file_index c - 1 + 1 >=? _) eqn:E2;
        rewrite Z.geb_leb in E2; [apply Z.leb_le in E2 | apply Z.leb_gt in E2]; lia.
Qed.

Lemma navigation_wraps_and_inverts_witness :
  let c := MkClassifier (pending_files sample_listing) 2 (Some "5") in
  current_file_index (next_image c) = 0
  /\ current_file_id (next_image c) = Some "1"
  /\ prev_image (next_image c) = c.
Proof.
  intro c.
  assert (Hs : showing c) by (unfold showing; simpl; split; [lia | reflexivity]).
  destruct (navigation_wraps_and_inverts c Hs) as (_ & _ & H3 & _ & H5 & _).
  split; [exact H3|]. split; [reflexivity | exact H5].
Defined.

Lemma renamed_prefixes f :
  is_normal (renamed "normal" f) = true
  /\ is_anomaly (renamed "normal" f) = false
  /\ is_normal (renamed "anomaly" f) = false
  /\ is_anomaly (renamed "anomaly" f) = true.
Proof.
  unfold is_normal, is_anomaly, renamed, classified_name. simpl.
  repeat split;
    repeat match goal with
           | |- context [ascii_dec ?a ?b] =>
               let E := fresh in
               destruct (ascii_dec a b) as [E|E];
               [try discriminate E | try (exfalso; apply E; reflexivity)]
           end;
    destruct (df_name f); reflexivity.
Qed.

(** X24: renaming as [classify_image] does takes a file off the
    pending list.  When a pending entry of the listing is renamed to
    [normal_<name>] or [anomaly_<name>], the next load counts one pending
    entry less and one more of that class, and the pending list is the
    old one without that entry. *)
Theorem classified_file_leaves_pending classification f before after :
  classification = "normal" \/ classification = "anomaly" ->
  is_normal f = false ->
  is_anomaly f = false ->
  let old := load_stats (before ++ f :: after) in
  let new := load_stats (before ++ renamed classification f :: after) in
  pending_files (before ++ renamed classification f :: after)
  = (pending_files before ++ pending_files after)%list
  /\ pending_files (before ++ f :: after)
     = (pending_files before ++ f :: pending_files after)%list
  /\ stats_total new = stats_total old
  /\ stats_pending old = S (stats_pending new)
  /\ (classification = "normal" ->
      stats_normal new = S (stats_normal old) /\ stats_anomaly new = stats_anomaly old)
  /\ (classification = "anomaly" ->
      stats_anomaly new = S (stats_anomaly old) /\ stats_normal new = stats_normal old).
Proof.
  intros Hc Hn Ha. cbv zeta. unfold load_stats. simpl.
  unfold pending_files, normal_files, anomaly_files.
  rewrite !filter_app, !length_app. simpl. rewrite Hn, Ha. simpl.
  assert (Hr : (classification = "normal"
                /\ is_normal (renamed classification f) = true
                /\ is_anomaly (renamed classification f) = false)
               \/ (classification = "anomaly"
                   /\ is_normal (renamed classification f) = false
                   /\ is_anomaly (renamed classification f) = true)).
  { destruct (renamed_prefixes f) as (R1 & R2 & R3 & R4).
    destruct Hc as [-> | ->]; [left | right]; auto. }
  destruct Hr as [(-> & Rn & Ra) | (-> & Rn & Ra)]; rewrite Rn, Ra; simpl;
    repeat split; try reflexivity; try lia;
    match goal with H : _ = _ :> string |- _ => discriminate H end.
Qed.

Lemma classified_file_leaves_pending_witness :
  let f := DriveFile "3" "dataset_image_3.jpg" "image/jpeg" in
  let new := load_stats [DriveFile "1" "dataset_image_1.jpg" "image/jpeg";
                         renamed "anomaly" f] in
  stats_pending new = 1%nat /\ stats_anomaly new = 1%nat
  /\ df_name (renamed "anomaly" f) = "anomaly_dataset_image_3.jpg".
Proof.
  intros f new.
  destruct (classified_file_leaves_pending "anomaly" f
              [DriveFile "1" "dataset_image_1.jpg" "image/jpeg"] []
              (or_intror eq_refl) eq_refl eq_refl) as (_ & _ & _ & Hp & _ & Han).
  destruct (Han eq_refl) as [Ha _].
  split; [|split; [exact Ha | reflexivity]].
  simpl in Hp. unfold new. simpl. lia.
Defined.

(** ** The classification application *)

Lemma substring_all s : substring 0 (String.length s) s = s.
Proof. induction s as [|c s IH]; simpl; [reflexivity | rewrite IH; reflexivity]. Qed.

Lemma ends_with_self s : ends_with s s = true.
Proof.
  unfold ends_with. rewrite Nat.leb_refl, Nat.sub_diag, substring_all. simpl.
  apply String.eqb_refl.
Qed.

Lemma ends_with_app suffix a b : ends_with suffix b = true -> ends_with suffix (a ++ b) = true.
Proof.
  intro H. induction a as [|c a IH]; simpl; [exact H|].
  unfold ends_with in *. apply andb_true_iff in IH. destruct IH as [Hle Heq].
  apply Nat.leb_le in Hle. apply andb_true_iff. split.
  - apply Nat.leb_le. simpl. lia.
  - simpl String.length.
    replace (S (String.length (a ++ b)) - String.length suffix)%nat
      with (S (String.length (a ++ b) - String.length suffix)) by lia.
    simpl. exact Heq.
Qed.

Lemma image_filename_is_jpg rt filename_prefix t :
  ends_with ".jpg" (image_filename rt filename_prefix t) = true.
Proof.
  unfold image_filename. do 3 apply ends_with_app. apply ends_with_self.
Qed.

Lemma find_file_filter_none p keep fs :
  find_file p fs = None -> find_file p (filter keep fs) = None.
Proof.
  unfold find_file. induction fs as [|f fs IH]; simpl; [reflexivity|].
  destruct (path_eqb (f_path f) p) eqn:E; [discriminate|]. intro H.
  destruct (keep f); simpl; rewrite ?E; apply IH; exact H.
Qed.

Lemma find_file_without_same p fs : find_file p (without_file p fs) = None.
Proof.
  unfold find_file, without_file. induction fs as [|f fs IH]; simpl; [reflexivity|].
  destruct (path_eqb (f_path f) p) eqn:E; simpl; [exact IH | rewrite E; exact IH].
Qed.

Lemma without_file_absent p fs : find_file p fs = None -> without_file p fs = fs.
Proof.
  unfold find_file, without_file. induction fs as [|f fs IH]; simpl; [reflexivity|].
  destruct (path_eqb (f_path f) p) eqn:E; [discriminate|]. intro H. simpl.
  rewrite IH by exact H. reflexivity.
Qed.

Lemma count_jpg_without_outside dir p fs :
  parent p <> dir -> count_jpg dir (without_file p fs) = count_jpg dir fs.
Proof.
  intro Hne. unfold count_jpg, without_file. rewrite filter_twice. f_equal.
  apply filter_ext. intro f.
  destruct (path_eqb (f_path f) p) eqn:E; simpl; [|reflexivity].
  apply path_eqb_eq in E. rewrite E.
  assert (Hd : String.eqb (parent p) dir = false) by (apply String.eqb_neq; exact Hne).
  rewrite Hd. reflexivity.
Qed.

Lemma count_jpg_cons dir f fs :
  count_jpg dir (f :: fs)
  = ((if String.eqb (parent (f_path f)) dir && ends_with ".jpg" (name (f_path f))
      then 1 else 0) + count_jpg dir fs)%nat.
Proof.
  unfold count_jpg. simpl.
  destruct (String.eqb (parent (f_path f)) dir && ends_with ".jpg" (name (f_path f)));
    reflexivity.
Qed.

(** The world after [os.rename(src, dst)] of the entry [f]. *)
Lemma classify_moves rt classification a w cur f :
  current_image_path a = Some cur ->
  is_capturing a = false ->
  find_file cur (files w) = Some f ->
  f_stat_ok f = true ->
  let dest := destination rt classification a (now w) in
  let fs' := File dest (f_mtime f) (f_data f) (f_stat_ok f) (f_removable f)
             :: without_file dest (without_file cur (files w)) in
  classify_and_capture rt classification a w
  = (Done (set_counts (count_jpg (good_dir a) fs') (count_jpg (bad_dir a) fs')
             (set_is_capturing true a)),
     set_files fs' w).
Proof.
  intros Hcur Hcap Hf Hs dest fs'.
  unfold classify_and_capture, os_path_exists, os_rename, update_counters.
  rewrite Hcur, Hcap. step_monad. rewrite Hf. simpl. rewrite Hs. simpl.
  rewrite Hf. reflexivity.
Qed.

(** X25: what a classification does to the files.  For an
    application that holds an existing image and is not capturing, the
    image is moved, not copied: it leaves its temporary path and appears,
    with the same content, under [good_dir] when the label is exactly
    ["good"] and under [bad_dir] for any other label, named
    [<label>_<timestamp>.jpg].  When that name is new, the counter of the
    destination class goes up by one and the other stays.  The application
    keeps pointing at the old path, so a second classification, once the
    capture flag is cleared, finds no file and changes nothing. *)
Theorem classification_moves_image rt classification a w cur f :
  current_image_path a = Some cur ->
  is_capturing a = false ->
  find_file cur (files w) = Some f ->
  f_stat_ok f = true ->
  let dest := destination rt classification a (now w) in
  cur <> dest ->
  parent cur <> good_dir a -> parent cur <> bad_dir a -> good_dir a <> bad_dir a ->
  exists a' w',
    classify_and_capture rt classification a w = (Done a', w')
    /\ find_file cur (files w') = None
    /\ find_file dest (files w')
       = Some (File dest (f_mtime f) (f_data f) (f_stat_ok f) (f_removable f))
    /\ parent dest = (if String.eqb classification "good" then good_dir a else bad_dir a)
    /\ is_capturing a' = true
    /\ current_image_path a' = Some cur
    /\ (find_file dest (files w) = None ->
        if String.eqb classification "good"
        then good_count a' = S (count_jpg (good_dir a) (files w))
             /\ bad_count a' = count_jpg (bad_dir a) (files w)
        else bad_count a' = S (count_jpg (bad_dir a) (files w))
             /\ good_count a' = count_jpg (good_dir a) (files w))
    /\ forall label,
         classify_and_capture rt label (set_is_capturing false a') w'
         = (Done (set_is_capturing true a'), w').
Proof.
  intros Hcur Hcap Hf Hs dest Hne Hg Hb Hgb.
  rewrite (classify_moves rt classification a w cur f Hcur Hcap Hf Hs).
  fold dest. do 2 eexists. split; [reflexivity|].
  assert (Hgone : find_file cur
                    (File dest (f_mtime f) (f_data f) (f_stat_ok f) (f_removable f)
                       :: without_file dest (without_file cur (files w))) = None).
  { unfold find_file at 1. simpl.
    destruct (path_eqb dest cur) eqn:E.
    - apply path_eqb_eq in E. congruence.
    - apply find_file_filter_none. apply find_file_without_same. }
  split; [exact Hgone|]. split; [apply find_file_head|].
  split; [reflexivity|]. split; [reflexivity|]. split; [exact Hcur|]. split.
  - intro Hfresh. unfold set_counts. cbn [good_count bad_count].
    assert (Hw : without_file dest (without_file cur (files w)) = without_file cur (files w)).
    { apply without_file_absent. apply find_file_filter_none. exact Hfresh. }
    rewrite Hw, !count_jpg_cons, !count_jpg_without_outside by assumption.
    cbn [f_path]. unfold dest, destination. cbn [parent name path_join].
    rewrite image_filename_is_jpg.
    destruct (String.eqb classification "good").
    + rewrite String.eqb_refl.
      assert (E : String.eqb (good_dir a) (bad_dir a) = false)
        by (apply String.eqb_neq; exact Hgb).
      rewrite E. simpl. split; reflexivity.
    + rewrite String.eqb_refl.
      assert (E : String.eqb (bad_dir a) (good_dir a) = false)
        by (apply String.eqb_neq; intro; apply Hgb; congruence).
      rewrite E. simpl. split; reflexivity.
  - intro label. unfold classify_and_capture, os_path_exists. simpl.
    rewrite Hcur. step_monad. rewrite Hgone. reflexivity.
Qed.

Lemma classification_moves_image_witness :
  exists a' w',
    classify_and_capture sample_runtime "Good" sample_app app_world = (Done a', w')
    /\ find_file (Path "dataset_images/19700101" "temp_image_90.jpg") (files w') = None
    /\ find_file (Path "dataset_images/19700101/bad" "Good_100.jpg") (files w')
       = Some (File (Path "dataset_images/19700101/bad" "Good_100.jpg") 90 "frame" true true)
    /\ bad_count a' = 1%nat /\ good_count a' = 1%nat.
Proof.
  destruct (classification_moves_image sample_runtime "Good" sample_app app_world
              (Path "dataset_images/19700101" "temp_image_90.jpg")
              (File (Path "dataset_images/19700101" "temp_image_90.jpg") 90 "frame" true true)
              eq_refl eq_refl eq_refl eq_refl)
    as (a' & w' & H1 & H2 & H3 & _ & _ & _ & H7 & _);
    try (intro H; discriminate H).
  exists a', w'. split; [exact H1|]. split; [exact H2|]. split; [exact H3|].
  exact (H7 eq_refl).
Defined.








